(** * Design-pattern demonstrations: observer and lazy singleton

    A shallow embedding of [behavioral/observer.py] and
    [creational/Singleton.py].

    Python objects live in a store and are named by references (natural
    numbers); identity of objects is equality of references, which is what
    the default [__hash__]/[__eq__] of the source classes give the [set] in
    [Subject._observers].  Methods are computations in a small state and
    exception monad over the store. *)

From stdpp Require Import gmap strings list.

Open Scope Z_scope.
Open Scope nat_scope.

(** ** Values and the store *)

Module Observer.

(** The payloads the demonstration passes around: [None] (the initial value
    of both state attributes) and scalars such as the strings of the script. *)
Inductive Value :=
  | PyNone
  | PyStr (s : string)
  | PyInt (n : Z)
  | PyBool (b : bool).

#[global] Instance Value_eq_dec : EqDecision Value.
Proof. solve_decision. Defined.

(** References to [Subject] objects and to [ConcreteObserver] objects. *)
Abbreviation sref := nat (only parsing).
Abbreviation oref := nat (only parsing).

(** Attributes of a [Subject] instance. *)
Record Subject := MkSubject {
  _subject_state : Value;
  _observers : gset nat
}.

(** Attributes of a [ConcreteObserver] instance ([Observer.__init__]). *)
Record ConcreteObserver := MkObserver {
  _observer_state : Value;
  _subject : option nat
}.

(** [Subject.__init__]: [_subject_state = None], [_observers = set()]. *)
Definition Subject__init__ : Subject :=
  {| _subject_state := PyNone; _observers := ∅ |}.

(** [Observer.__init__]: [_observer_state = None], [_subject = None]. *)
Definition Observer__init__ : ConcreteObserver :=
  {| _observer_state := PyNone; _subject := None |}.

(** The store.  [calls] is a ghost log: every execution of
    [ConcreteObserver.update] appends the receiver and the argument, so that
    "update was invoked" can be stated.  It is never read by the program. *)
Record Heap := MkHeap {
  subjects : gmap nat Subject;
  observers : gmap nat ConcreteObserver;
  calls : list (nat * Value)
}.

(** No object has been touched yet and [update] has never run. *)
Definition empty_heap : Heap :=
  {| subjects := ∅; observers := ∅; calls := [] |}.

(** An object that no method has written yet is as its constructor leaves
    it. *)
Definition subject_at (h : Heap) (s : sref) : Subject :=
  default Subject__init__ (subjects h !! s).

Definition observer_at (h : Heap) (o : oref) : ConcreteObserver :=
  default Observer__init__ (observers h !! o).

(** ** The monad: store passing with exceptions *)

Inductive exn :=
  | AttributeError
  | AssertionError.

(** A computation either returns a value or raises; in both cases it leaves
    a store behind (the store at the moment of the [raise]). *)
Inductive outcome (A : Type) :=
  | Ok (a : A) (h : Heap)
  | Raise (e : exn) (h : Heap).
Arguments Ok {A} a h.
Arguments Raise {A} e h.

Definition Py (A : Type) : Type := Heap → outcome A.

Definition heap_of {A} (r : outcome A) : Heap :=
  match r with
  | Ok _ h => h
  | Raise _ h => h
  end.

Definition is_ok {A} (r : outcome A) : bool :=
  match r with
  | Ok _ _ => true
  | Raise _ _ => false
  end.

#[global] Instance Py_ret : MRet Py := λ A a h, Ok a h.

#[global] Instance Py_bind : MBind Py := λ A B k m h,
  match m h with
  | Ok a h' => k a h'
  | Raise e h' => Raise e h'
  end.

Definition raise {A} (e : exn) : Py A := λ h, Raise e h.

Definition read_subject (s : sref) : Py Subject :=
  λ h, Ok (subject_at h s) h.

Definition write_subject (s : sref) (v : Subject) : Py unit :=
  λ h, Ok () {| subjects := <[s := v]> (subjects h);
               observers := observers h;
               calls := calls h |}.

Definition read_observer (o : oref) : Py ConcreteObserver :=
  λ h, Ok (observer_at h o) h.

Definition write_observer (o : oref) (v : ConcreteObserver) : Py unit :=
  λ h, Ok () {| subjects := subjects h;
               observers := <[o := v]> (observers h);
               calls := calls h |}.

(** Ghost: record one invocation of [update]. *)
Definition log_update (o : oref) (arg : Value) : Py unit :=
  λ h, Ok () {| subjects := subjects h;
               observers := observers h;
               calls := calls h ++ [(o, arg)] |}.

(** [for x in xs: body(x)] *)
Fixpoint for_each {A} (xs : list A) (body : A → Py unit) : Py unit :=
  match xs with
  | [] => mret ()
  | x :: xs' => body x ;; for_each xs' body
  end.

(** ** The methods *)

(** [ConcreteObserver.update]: [self._observer_state = arg]. *)
Definition update (self : oref) (arg : Value) : Py unit :=
  log_update self arg ;;
  me ← read_observer self;
  write_observer self {| _observer_state := arg; _subject := _subject me |}.

(** [Subject._notify] over an explicit iteration order. *)
Definition _notify_in_order (order : list oref) (arg : Value) : Py unit :=
  for_each order (λ observer, update observer arg).

(** [Subject._notify]: [for observer in self._observers: observer.update(arg)].
    The iteration order of a Python set is unspecified; the model iterates in
    the order of [elements], and [_notify_in_order_perm] below shows that the
    resulting objects do not depend on that choice. *)
Definition _notify (self : sref) (arg : Value) : Py unit :=
  me ← read_subject self;
  _notify_in_order (elements (_observers me)) arg.

(** [Subject.register]:
    [self._observers.add(observer); observer._subject = self]. *)
Definition register (self : sref) (observer : oref) : Py unit :=
  me ← read_subject self;
  write_subject self {| _subject_state := _subject_state me;
                        _observers := {[observer]} ∪ _observers me |} ;;
  ob ← read_observer observer;
  write_observer observer {| _observer_state := _observer_state ob;
                             _subject := Some self |}.

(** [Subject.de_register]:
    [self._observers.discard(observer); observer._subject = None]. *)
Definition de_register (self : sref) (observer : oref) : Py unit :=
  me ← read_subject self;
  write_subject self {| _subject_state := _subject_state me;
                        _observers := _observers me ∖ {[observer]} |} ;;
  ob ← read_observer observer;
  write_observer observer {| _observer_state := _observer_state ob;
                             _subject := None |}.

(** The [subject_state] property, getter. *)
Definition subject_state (self : sref) : Py Value :=
  me ← read_subject self;
  mret (_subject_state me).

(** The [subject_state] property, setter:
    [self._subject_state = arg; self._notify(arg)]. *)
Definition subject_state_setter (self : sref) (arg : Value) : Py unit :=
  me ← read_subject self;
  write_subject self {| _subject_state := arg;
                        _observers := _observers me |} ;;
  _notify self arg.

(** [ConcreteObserver.push]: [self._subject.subject_state = arg].  When
    [self._subject] is [None] the attribute assignment on [None] raises
    [AttributeError] before anything is written. *)
Definition push (self : oref) (arg : Value) : Py unit :=
  me ← read_observer self;
  match _subject me with
  | None => raise AttributeError
  | Some s => subject_state_setter s arg
  end.

(** ** Sequences of calls made by a client *)

Inductive call :=
  | Register (s : sref) (d : oref)
  | DeRegister (s : sref) (d : oref)
  | SetState (s : sref) (v : Value)
  | Push (d : oref) (v : Value).

Definition exec (c : call) : Py unit :=
  match c with
  | Register s d => register s d
  | DeRegister s d => de_register s d
  | SetState s v => subject_state_setter s v
  | Push d v => push d v
  end.

(** A client that issues the calls one after the other; a call that raises
    is caught and the client goes on from the store the call left. *)
Fixpoint exec_all (cs : list call) (h : Heap) : Heap :=
  match cs with
  | [] => h
  | c :: cs' => exec_all cs' (heap_of (exec c h))
  end.

(** [for v in vs: subject.subject_state = v] *)
Definition set_states (s : sref) (vs : list Value) : Py unit :=
  for_each vs (subject_state_setter s).

(** ** The script at the end of the module *)

(** [Subject()] and [ConcreteObserver()]: a reference no object has yet,
    initialised by the constructor. *)
Definition Subject_new : Py sref :=
  λ h, let r := fresh (dom (subjects h)) in
       Ok r {| subjects := <[r := Subject__init__]> (subjects h);
               observers := observers h;
               calls := calls h |}.

Definition ConcreteObserver_new : Py oref :=
  λ h, let r := fresh (dom (observers h)) in
       Ok r {| subjects := subjects h;
               observers := <[r := Observer__init__]> (observers h);
               calls := calls h |}.

(** [assert b] *)
Definition assert (b : bool) : Py unit :=
  if b then mret () else raise AssertionError.

Definition script : Py unit :=
  subject ← Subject_new;
  concrete_observer1 ← ConcreteObserver_new;
  concrete_observer2 ← ConcreteObserver_new;
  register subject concrete_observer1 ;;
  register subject concrete_observer2 ;;
  subject_state_setter subject (PyStr "hello") ;;
  o1 ← read_observer concrete_observer1;
  assert (bool_decide (_observer_state o1 = PyStr "hello")) ;;
  o2 ← read_observer concrete_observer2;
  assert (bool_decide (_observer_state o2 = PyStr "hello")) ;;
  push concrete_observer1 (PyStr "hello1") ;;
  o2 ← read_observer concrete_observer2;
  assert (bool_decide (_observer_state o2 = PyStr "hello1")) ;;
  st ← subject_state subject;
  assert (bool_decide (st = PyStr "hello1")) ;;
  de_register subject concrete_observer2 ;;
  subject_state_setter subject (PyStr "hello2") ;;
  o1 ← read_observer concrete_observer1;
  assert (bool_decide (_observer_state o1 = PyStr "hello2")) ;;
  o2 ← read_observer concrete_observer2;
  assert (bool_decide (_subject o2 = None)).

(** The arguments with which [update] ran on [d], oldest first. *)
Definition updates_of (d : oref) (h : Heap) : list Value :=
  (filter (λ e, e.1 = d) (calls h)).*2.

(** Number of times [d] occurs when the registry of [s] is enumerated. *)
Definition memberships (h : Heap) (s : sref) (d : oref) : nat :=
  length (filter (λ x, x = d) (elements (_observers (subject_at h s)))).

(** ** What the methods leave behind *)

(** The effect of one broadcast round over the iteration order [l]. *)
Record broadcast (l : list oref) (v : Value) (h h' : Heap) : Prop := {
  bc_subjects : subjects h' = subjects h;
  bc_calls : calls h' = calls h ++ map (λ o, (o, v)) l;
  bc_backref : ∀ o, _subject (observer_at h' o) = _subject (observer_at h o);
  bc_seen : ∀ o, o ∈ l → _observer_state (observer_at h' o) = v;
  bc_unseen : ∀ o, o ∉ l →
    _observer_state (observer_at h' o) = _observer_state (observer_at h o)
}.

(** The effect of [subject.subject_state = v]. *)
Record state_set (s : sref) (v : Value) (h h' : Heap) : Prop := {
  ss_state : _subject_state (subject_at h' s) = v;
  ss_registry : ∀ s', _observers (subject_at h' s') = _observers (subject_at h s');
  ss_frame : ∀ s', s' ≠ s → subject_at h' s' = subject_at h s';
  ss_calls : calls h' =
    calls h ++ map (λ o, (o, v)) (elements (_observers (subject_at h s)));
  ss_backref : ∀ o, _subject (observer_at h' o) = _subject (observer_at h o);
  ss_seen : ∀ o, o ∈ _observers (subject_at h s) →
    _observer_state (observer_at h' o) = v;
  ss_unseen : ∀ o, o ∉ _observers (subject_at h s) →
    _observer_state (observer_at h' o) = _observer_state (observer_at h o)
}.

(** The effect of [subject.register(d)]. *)
Record registered (s : sref) (d : oref) (h h' : Heap) : Prop := {
  reg_registry :
    _observers (subject_at h' s) = {[d]} ∪ _observers (subject_at h s);
  reg_state : _subject_state (subject_at h' s) = _subject_state (subject_at h s);
  reg_frame : ∀ s', s' ≠ s → subject_at h' s' = subject_at h s';
  reg_backref : _subject (observer_at h' d) = Some s;
  reg_seen : _observer_state (observer_at h' d) = _observer_state (observer_at h d);
  reg_others : ∀ d', d' ≠ d → observer_at h' d' = observer_at h d';
  reg_calls : calls h' = calls h
}.

(** The effect of [subject.de_register(d)]. *)
Record deregistered (s : sref) (d : oref) (h h' : Heap) : Prop := {
  dereg_registry :
    _observers (subject_at h' s) = _observers (subject_at h s) ∖ {[d]};
  dereg_state :
    _subject_state (subject_at h' s) = _subject_state (subject_at h s);
  dereg_frame : ∀ s', s' ≠ s → subject_at h' s' = subject_at h s';
  dereg_backref : _subject (observer_at h' d) = None;
  dereg_seen :
    _observer_state (observer_at h' d) = _observer_state (observer_at h d);
  dereg_others : ∀ d', d' ≠ d → observer_at h' d' = observer_at h d';
  dereg_calls : calls h' = calls h
}.

(** ** Stores a client can reach *)

(** The heap of the script just before [concrete_observer1.push('hello1')]:
    hub 0 with dependents 1 and 2. *)
Definition two_registered : Heap :=
  heap_of ((register 0 1 ;; register 0 2) empty_heap).

(** Every member of every registry points back at that hub. *)
Definition backrefs_consistent (h : Heap) : Prop :=
  ∀ s d, d ∈ _observers (subject_at h s) → _subject (observer_at h d) = Some s.

(** The hub a back-reference names has the dependent in its registry. *)
Definition backrefs_registered (h : Heap) : Prop :=
  ∀ s d, _subject (observer_at h d) = Some s → d ∈ _observers (subject_at h s).

(** [d] is in the registry of no hub other than [s]. *)
Definition in_no_other_registry (h : Heap) (s : sref) (d : oref) : Prop :=
  ∀ s', s' ≠ s → d ∉ _observers (subject_at h s').

(** The call hands a dependent to [register] or [de_register] of a hub only
    while no other hub has it in its registry. *)
Definition admissible (c : call) (h : Heap) : Prop :=
  match c with
  | Register s d | DeRegister s d => in_no_other_registry h s d
  | SetState _ _ | Push _ _ => True
  end.

(** Every call of the sequence is admissible in the store it is made in. *)
Fixpoint all_admissible (cs : list call) (h : Heap) : Prop :=
  match cs with
  | [] => True
  | c :: cs' => admissible c h ∧ all_admissible cs' (heap_of (exec c h))
  end.

(** The same, as a check that runs: only the hubs the store holds can have
    a member. *)
Definition admissible_b (c : call) (h : Heap) : bool :=
  match c with
  | Register s d | DeRegister s d =>
      bool_decide
        (map_Forall (λ s' sb, s' = s ∨ d ∉ _observers sb) (subjects h))
  | SetState _ _ | Push _ _ => true
  end.

Fixpoint all_admissible_b (cs : list call) (h : Heap) : bool :=
  match cs with
  | [] => true
  | c :: cs' => admissible_b c h && all_admissible_b cs' (heap_of (exec c h))
  end.

End Observer.

(** * The lazy singleton accessor ([creational/Singleton.py]) *)

Module Singleton.

(** A reference to a [Singleton] instance.  [Singleton()] hands out the
    references 0, 1, 2, ... in the order of construction. *)
Abbreviation ref := nat (only parsing).

(** The class attributes.  [constructed] is a ghost counter of the
    [Singleton()] constructions so far; the program never reads it. *)
Record Class := MkClass {
  __singleton_lock : bool;          (* [True] while the lock is held *)
  __app_instance : option nat;      (* [None] or the instance *)
  constructed : nat
}.

(** The class as the [class] statement leaves it. *)
Definition Uninitialized : Class :=
  {| __singleton_lock := false; __app_instance := None; constructed := 0 |}.

(** [not x] for [x] either [None] or a [Singleton] instance: the class
    defines neither [__bool__] nor [__len__], so an instance is true. *)
Definition not_ (x : option ref) : bool :=
  match x with
  | None => true
  | Some _ => false
  end.

(** ** One caller at a time *)

Inductive result :=
  | Returns (r : option nat) (c : Class)
  | Blocks.   (* [acquire()] on a lock nobody will release *)

(** [Singleton()], then the assignment to [cls.__app_instance]. *)
Definition construct_and_store (c : Class) : Class :=
  {| __singleton_lock := __singleton_lock c;
     __app_instance := Some (constructed c);
     constructed := S (constructed c) |}.

Definition with_lock (b : bool) (c : Class) : Class :=
  {| __singleton_lock := b;
     __app_instance := __app_instance c;
     constructed := constructed c |}.

(** [Singleton.get_cls_instance], run without interference. *)
Definition get_cls_instance (c : Class) : result :=
  if not_ (__app_instance c) then
    if __singleton_lock c then Blocks
    else
      let c1 := with_lock true c in
      let c2 := if not_ (__app_instance c1) then construct_and_store c1
                else c1 in
      let c3 := with_lock false c2 in
      Returns (__app_instance c3) c3
  else Returns (__app_instance c) c.

(** [n] calls in a row; the references they return, oldest first. *)
Fixpoint get_cls_instances (n : nat) (c : Class)
  : option (list (option nat) * Class) :=
  match n with
  | 0 => Some ([], c)
  | S n' =>
      match get_cls_instance c with
      | Blocks => None
      | Returns r c' =>
          match get_cls_instances n' c' with
          | Some (rs, c'') => Some (r :: rs, c'')
          | None => None
          end
      end
  end.

(** ** Several callers at once

    Each caller is a thread running [get_cls_instance]; a step of a thread is
    one attribute read, one attribute write, one construction or one lock
    operation, and the steps of the threads interleave in any order. *)

(** Where a thread is in the body of [get_cls_instance] (source lines). *)
Inductive pc :=
  | L40                      (* [if not cls.__app_instance:] *)
  | L41                      (* [cls.__singleton_lock.acquire()] *)
  | L42                      (* [if not cls.__app_instance:] *)
  | L43                      (* [Singleton()] *)
  | L43_store (obj : nat)    (* [cls.__app_instance = <obj>] *)
  | L44                      (* [cls.__singleton_lock.release()] *)
  | L46                      (* [return cls.__app_instance] *)
  | Done (r : option nat)    (* returned [r] *)
  | RuntimeError.            (* [release()] of an unlocked lock *)

(** One step of a thread at [p]; [None] when it cannot move: it waits for
    the lock, or has finished. *)
Definition thread_step (c : Class) (p : pc) : option (Class * pc) :=
  match p with
  | L40 => Some (c, if not_ (__app_instance c) then L41 else L46)
  | L41 => if __singleton_lock c then None
           else Some (with_lock true c, L42)
  | L42 => Some (c, if not_ (__app_instance c) then L43 else L44)
  | L43 => Some ({| __singleton_lock := __singleton_lock c;
                    __app_instance := __app_instance c;
                    constructed := S (constructed c) |},
                 L43_store (constructed c))
  | L43_store obj => Some ({| __singleton_lock := __singleton_lock c;
                              __app_instance := Some obj;
                              constructed := constructed c |}, L44)
  | L44 => if __singleton_lock c then Some (with_lock false c, L46)
           else Some (c, RuntimeError)
  | L46 => Some (c, Done (__app_instance c))
  | Done _ | RuntimeError => None
  end.

(** The class and the callers. *)
Record World := MkWorld {
  cls : Class;
  threads : list pc
}.

(** [N] callers about to enter, on the class as first loaded. *)
Definition spawn (N : nat) : World :=
  {| cls := Uninitialized; threads := replicate N L40 |}.

(** Thread [t] takes a step. *)
Definition sched_step (t : nat) (w : World) : option World :=
  match threads w !! t with
  | None => None
  | Some p =>
      match thread_step (cls w) p with
      | None => None
      | Some (c', p') => Some {| cls := c'; threads := <[t := p']> (threads w) |}
      end
  end.

(** The threads step in the order the schedule lists them. *)
Fixpoint run (schedule : list nat) (w : World) : option World :=
  match schedule with
  | [] => Some w
  | t :: schedule' =>
      match sched_step t w with
      | None => None
      | Some w' => run schedule' w'
      end
  end.

(** The part of the body between [acquire()] and [release()]. *)
Definition in_critical_section (p : pc) : bool :=
  match p with
  | L42 | L43 | L43_store _ | L44 => true
  | _ => false
  end.

Definition returned (p : pc) : bool :=
  match p with
  | Done _ => true
  | _ => false
  end.

(** Steps a thread at [p] has left at most. *)
Definition steps_left (p : pc) : nat :=
  match p with
  | L40 => 7
  | L41 => 6
  | L42 => 5
  | L43 => 4
  | L43_store _ => 3
  | L44 => 2
  | L46 => 1
  | Done _ | RuntimeError => 0
  end.

(** ** The invariant of the threaded runs *)

(** What holds of the class while a thread is at [p]. *)
Definition thread_ok (c : Class) (p : pc) : Prop :=
  match p with
  | L40 | L41 | L42 => True
  | L43 => __app_instance c = None ∧ constructed c = 0
  | L43_store obj =>
      obj = 0 ∧ __app_instance c = None ∧ constructed c = 1
  | L44 | L46 => __app_instance c = Some 0
  | Done r => r = Some 0 ∧ __app_instance c = Some 0
  | RuntimeError => False
  end.

(** The instance, once stored, is object 0 and the only one constructed;
    before that, at most one object exists, in the hands of the thread about
    to store it. *)
Definition class_ok (w : World) : Prop :=
  match __app_instance (cls w) with
  | Some i => i = 0 ∧ constructed (cls w) = 1
  | None =>
      constructed (cls w) = 0
      ∨ (constructed (cls w) = 1 ∧ ∃ t, threads w !! t = Some (L43_store 0))
  end.

Definition lock_of (holder : option nat) : bool :=
  match holder with
  | Some _ => true
  | None => false
  end.

(** The lock is held exactly when some thread, the [holder], is in the
    critical section, and no other thread is. *)
Definition holder_ok (holder : option nat) (w : World) : Prop :=
  __singleton_lock (cls w) = lock_of holder
  ∧ (∀ t, holder = Some t → is_Some (threads w !! t))
  ∧ ∀ t p, threads w !! t = Some p →
      (in_critical_section p = true ↔ holder = Some t)
      ∧ thread_ok (cls w) p.

Definition inv (w : World) : Prop :=
  class_ok w ∧ ∃ holder, holder_ok holder w.

(** Sum over the threads of the steps each has left. *)
Definition work_left (w : World) : nat :=
  sum_list (steps_left <$> threads w).

(** Two callers that both find the class uninitialized at line 40; the first
    constructs, the second finds the instance at line 42. *)
Definition race : list nat := [0; 1; 0; 0; 0; 0; 0; 1; 1; 1; 0; 1].

Definition after_race : World :=
  {| cls := {| __singleton_lock := false; __app_instance := Some 0;
               constructed := 1 |};
     threads := [Done (Some 0); Done (Some 0)] |}.

End Singleton.

(** * Facts about the observer protocol *)

Module ObserverFacts.
Import Observer.

(** ** What each method does to the store *)

Lemma update_eq o v h :
  update o v h =
  Ok () {| subjects := subjects h;
           observers :=
             <[o := {| _observer_state := v;
                       _subject := _subject (observer_at h o) |}]>
               (observers h);
           calls := calls h ++ [(o, v)] |}.
Proof. reflexivity. Qed.

Lemma observer_at_insert h o ob o' S C :
  observer_at {| subjects := S; observers := <[o := ob]> (observers h);
                 calls := C |} o'
  = if decide (o = o') then ob else observer_at h o'.
Proof.
  unfold observer_at; simpl. rewrite lookup_insert.
  destruct (decide (o = o')); reflexivity.
Qed.

Lemma subject_at_insert h s sb s' O C :
  subject_at {| subjects := <[s := sb]> (subjects h); observers := O;
                calls := C |} s'
  = if decide (s = s') then sb else subject_at h s'.
Proof.
  unfold subject_at; simpl. rewrite lookup_insert.
  destruct (decide (s = s')); reflexivity.
Qed.

Lemma _notify_in_order_spec l v h :
  ∃ h', _notify_in_order l v h = Ok () h' ∧ broadcast l v h h'.
Proof.
  revert h. induction l as [|o l IH]; intros h.
  - exists h. split; [reflexivity|].
    split; intros; try reflexivity.
    + simpl. by rewrite app_nil_r.
    + by apply not_elem_of_nil in H.
  - unfold _notify_in_order. simpl for_each.
    unfold mbind at 1, Py_bind. rewrite update_eq.
    set (h1 := {| subjects := subjects h |}).
    destruct (IH h1) as (h' & Hrun & [Hs Hc Hb Hin Hout]).
    exists h'. split; [exact Hrun|].
    split.
    + by rewrite Hs.
    + rewrite Hc. subst h1; simpl. by rewrite <- app_assoc.
    + intros o'. rewrite Hb. subst h1. rewrite observer_at_insert.
      destruct (decide (o = o')); [by subst|done].
    + intros o' Ho'. destruct (decide (o' ∈ l)) as [Hl|Hl]; [by apply Hin|].
      rewrite (Hout _ Hl). subst h1. rewrite observer_at_insert.
      apply elem_of_cons in Ho' as [->|?]; [|done].
      by rewrite decide_True.
    + intros o' Ho'. apply not_elem_of_cons in Ho' as [Hne Hl].
      rewrite (Hout _ Hl). subst h1. rewrite observer_at_insert.
      by rewrite decide_False.
Qed.

(** The objects a broadcast leaves behind do not depend on the order in
    which the set is iterated; only the order of the log entries does. *)
Lemma _notify_in_order_perm l l' v h :
  l ≡ₚ l' →
  let h1 := heap_of (_notify_in_order l v h) in
  let h2 := heap_of (_notify_in_order l' v h) in
  subjects h1 = subjects h2
  ∧ (∀ o, observer_at h1 o = observer_at h2 o)
  ∧ calls h1 ≡ₚ calls h2.
Proof.
  intros Hp h1 h2.
  destruct (_notify_in_order_spec l v h) as (k1 & E1 & [S1 C1 B1 I1 O1]).
  destruct (_notify_in_order_spec l' v h) as (k2 & E2 & [S2 C2 B2 I2 O2]).
  subst h1 h2. rewrite E1, E2. simpl.
  split; [congruence|]. split.
  - intros o.
    assert (_subject (observer_at k1 o) = _subject (observer_at k2 o))
      as Hsub by (by rewrite B1, B2).
    assert (_observer_state (observer_at k1 o)
            = _observer_state (observer_at k2 o)) as Hst.
    { destruct (decide (o ∈ l)) as [Hl|Hl].
      - rewrite (I1 _ Hl). symmetry. apply I2. by rewrite <- Hp.
      - rewrite (O1 _ Hl). symmetry. apply O2. by rewrite <- Hp. }
    destruct (observer_at k1 o), (observer_at k2 o); simpl in *; congruence.
  - rewrite C1, C2. by rewrite Hp.
Qed.

(** [x = subject.subject_state] reads and changes nothing. *)
Lemma subject_state_eq s h :
  subject_state s h = Ok (_subject_state (subject_at h s)) h.
Proof. reflexivity. Qed.

Lemma subject_state_setter_spec s v h :
  ∃ h', subject_state_setter s v h = Ok () h' ∧ state_set s v h h'.
Proof.
  unfold subject_state_setter, _notify, read_subject, write_subject.
  unfold mbind, Py_bind. simpl.
  set (h1 := {| subjects := <[s := _]> (subjects h) |}).
  assert (subject_at h1 s =
          {| _subject_state := v; _observers := _observers (subject_at h s) |})
    as Hs1.
  { subst h1. rewrite subject_at_insert. by rewrite decide_True. }
  assert (∀ s', s' ≠ s → subject_at h1 s' = subject_at h s') as Hf1.
  { intros s' Hne. subst h1. rewrite subject_at_insert.
    by rewrite decide_False. }
  rewrite Hs1. simpl.
  destruct (_notify_in_order_spec
              (elements (_observers (subject_at h s))) v h1)
    as (h' & Hrun & [Hs Hc Hb Hin Hout]).
  exists h'. split; [exact Hrun|].
  assert (∀ s', subject_at h' s' = subject_at h1 s') as Hsub.
  { intros s'. unfold subject_at. by rewrite Hs. }
  split.
  - by rewrite Hsub, Hs1.
  - intros s'. rewrite Hsub. destruct (decide (s' = s)) as [->|Hne].
    + by rewrite Hs1.
    + by rewrite Hf1.
  - intros s' Hne. by rewrite Hsub, Hf1.
  - exact Hc.
  - exact Hb.
  - intros o Ho. apply Hin. by apply elem_of_elements.
  - intros o Ho. rewrite Hout; [done|]. by rewrite elem_of_elements.
Qed.

Lemma register_spec s d h :
  ∃ h', register s d h = Ok () h' ∧ registered s d h h'.
Proof.
  eexists. split; [reflexivity|].
  split; simpl; rewrite ?subject_at_insert, ?observer_at_insert;
    rewrite ?decide_True by done; try done.
  - intros s' Hne. rewrite subject_at_insert. by rewrite decide_False.
  - intros d' Hne. rewrite observer_at_insert. by rewrite decide_False.
Qed.

Lemma de_register_spec s d h :
  ∃ h', de_register s d h = Ok () h' ∧ deregistered s d h h'.
Proof.
  eexists. split; [reflexivity|].
  split; simpl; rewrite ?subject_at_insert, ?observer_at_insert;
    rewrite ?decide_True by done; try done.
  - intros s' Hne. rewrite subject_at_insert. by rewrite decide_False.
  - intros d' Hne. rewrite observer_at_insert. by rewrite decide_False.
Qed.

(** [push] is the setter of the hub the back-reference names, and raises
    without a hub. *)
Lemma push_bound d s v h :
  _subject (observer_at h d) = Some s →
  push d v h = subject_state_setter s v h.
Proof.
  intros Hb. unfold push, read_observer, mbind, Py_bind. by rewrite Hb.
Qed.

Lemma push_unbound d v h :
  _subject (observer_at h d) = None →
  push d v h = Raise AttributeError h.
Proof.
  intros Hb. unfold push, read_observer, mbind, Py_bind. by rewrite Hb.
Qed.

(** ** The log of [update] invocations *)

Lemma updates_of_app d h C :
  (filter (λ e : nat * Value, e.1 = d) (calls h ++ C)).*2
  = updates_of d h ++ (filter (λ e : nat * Value, e.1 = d) C).*2.
Proof. unfold updates_of. by rewrite filter_app, fmap_app. Qed.

Lemma updates_round_notin d v (l : list oref) :
  d ∉ l →
  (filter (λ e : nat * Value, e.1 = d) (map (λ o, (o, v)) l)).*2 = [].
Proof.
  induction l as [|o l IH]; intros Hd; [done|].
  apply not_elem_of_cons in Hd as [Hne Hl]. rewrite map_cons.
  rewrite filter_cons_False by (simpl; congruence). by apply IH.
Qed.

Lemma updates_round d v (l : list oref) :
  NoDup l →
  (filter (λ e : nat * Value, e.1 = d) (map (λ o, (o, v)) l)).*2
  = if decide (d ∈ l) then [v] else [].
Proof.
  induction 1 as [|o l Hnotin Hnd IH]; [done|]. rewrite map_cons.
  destruct (decide (o = d)) as [->|Hne].
  - rewrite filter_cons_True by done. rewrite fmap_cons.
    rewrite updates_round_notin by done.
    rewrite decide_True by apply list_elem_of_here. done.
  - rewrite filter_cons_False by (simpl; congruence). rewrite IH.
    destruct (decide (d ∈ l)) as [Hl|Hl].
    + rewrite decide_True by (by apply list_elem_of_further). done.
    + rewrite decide_False; [done|].
      intros [?|?]%elem_of_cons; congruence.
Qed.

(** One [setState] runs [update] once on every member, with the new value,
    and on nobody else. *)
Lemma state_set_updates s v h h' d :
  state_set s v h h' →
  updates_of d h' =
  updates_of d h ++ (if decide (d ∈ _observers (subject_at h s)) then [v] else []).
Proof.
  intros H. unfold updates_of at 1. rewrite (ss_calls _ _ _ _ H).
  rewrite updates_of_app. f_equal.
  rewrite updates_round by apply NoDup_elements.
  destruct (decide (d ∈ _observers (subject_at h s))) as [Hin|Hout].
  - rewrite decide_True; [done|]. by apply elem_of_elements.
  - rewrite decide_False; [done|]. by rewrite elem_of_elements.
Qed.

(** The assertions of the module's own script hold in the model. *)
Lemma script_passes : is_ok (script empty_heap) = true.
Proof. vm_compute. reflexivity. Qed.

(** ** Broadcast *)

Lemma set_states_cons s v vs h :
  set_states s (v :: vs) h =
  match subject_state_setter s v h with
  | Ok _ h' => set_states s vs h'
  | Raise e h' => Raise e h'
  end.
Proof. reflexivity. Qed.

(** C1. Broadcast delivers the current value: a run of
    [setState(v1) ... setState(vn)] on hub [s] returns normally; for a
    dependent [d] in the registry of [s], [update] has run on [d] once per
    call, in order, each time with that call's value (and had done so by the
    time that call returned, the statement holding for every prefix of the
    run); [d] is still registered afterwards, and its [_observer_state] is the
    last value [vn], which is the hub's state too. *)
Theorem broadcast_delivers_current_value s d vs h :
  d ∈ _observers (subject_at h s) →
  ∃ h', set_states s vs h = Ok () h'
    ∧ updates_of d h' = updates_of d h ++ vs
    ∧ d ∈ _observers (subject_at h' s)
    ∧ ∀ vn, last vs = Some vn →
        _observer_state (observer_at h' d) = vn
        ∧ _subject_state (subject_at h' s) = vn.
Proof.
  revert h. induction vs as [|v vs IH]; intros h Hd.
  - exists h. split; [reflexivity|]. split; [by rewrite app_nil_r|].
    split; [done|]. intros vn [=].
  - rewrite set_states_cons.
    destruct (subject_state_setter_spec s v h) as (h1 & -> & Hset).
    assert (d ∈ _observers (subject_at h1 s)) as Hd1
      by (by rewrite (ss_registry _ _ _ _ Hset)).
    destruct (IH h1 Hd1) as (h' & Hrun & Hupd & Hd' & Hlast).
    exists h'. split; [exact Hrun|]. split; [|split; [exact Hd'|]].
    + rewrite Hupd, (state_set_updates _ _ _ _ d Hset).
      rewrite decide_True by done. by rewrite <- app_assoc.
    + intros vn Hvn. destruct vs as [|v' vs'].
      * injection Hvn as <-. injection Hrun as <-.
        split; [by apply (ss_seen _ _ _ _ Hset)|by apply (ss_state _ _ _ _ Hset)].
      * apply Hlast. exact Hvn.
Qed.

Lemma broadcast_delivers_current_value_witness :
  ∃ h', set_states 0 [PyStr "a"; PyStr "b"]
          (heap_of (register 0 1 empty_heap)) = Ok () h'
    ∧ updates_of 1 h' = [PyStr "a"; PyStr "b"]
    ∧ _observer_state (observer_at h' 1) = PyStr "b".
Proof.
  destruct (broadcast_delivers_current_value 0 1 [PyStr "a"; PyStr "b"]
              (heap_of (register 0 1 empty_heap)))
    as (h' & Hrun & Hupd & _ & Hlast).
  - vm_compute. set_solver.
  - exists h'. split; [exact Hrun|]. split; [exact Hupd|].
    by apply (Hlast (PyStr "b")).
Defined.

(** ** Push *)

(** C2. Push round-trips through the hub: let [a] be registered with hub
    [s], that is, let the back-reference of [a] name [s] (in every store a
    client can reach the registry of [s] then has [a], see
    [reachable_backrefs_registered]), and let [b] be any dependent in the
    registry of [s].  Then [a.push(x)] returns normally, after it
    [s.getState()] is [x], and [b] has [_observer_state = x]. *)
Theorem push_round_trips a b s x h :
  _subject (observer_at h a) = Some s →
  b ∈ _observers (subject_at h s) →
  ∃ h', push a x h = Ok () h'
    ∧ subject_state s h' = Ok x h'
    ∧ _observer_state (observer_at h' b) = x.
Proof.
  intros Ha Hb. rewrite (push_bound _ _ _ _ Ha).
  destruct (subject_state_setter_spec s x h) as (h' & -> & Hset).
  exists h'. split; [done|]. split.
  - rewrite subject_state_eq. by rewrite (ss_state _ _ _ _ Hset).
  - by apply (ss_seen _ _ _ _ Hset).
Qed.

Lemma push_round_trips_witness :
  ∃ h', push 1 (PyStr "hello1") two_registered = Ok () h'
    ∧ subject_state 0 h' = Ok (PyStr "hello1") h'
    ∧ _observer_state (observer_at h' 2) = PyStr "hello1".
Proof.
  apply (push_round_trips 1 2 0 (PyStr "hello1") two_registered).
  - reflexivity.
  - vm_compute. set_solver.
Defined.

(** C6. [push] on a dependent whose back-reference is [None] raises
    ([AttributeError], from the attribute assignment on [None]); the store
    the call leaves is the store it started from, so no hub's state or
    registry has changed. *)
Theorem push_unregistered_raises d x h :
  _subject (observer_at h d) = None →
  push d x h = Raise AttributeError h.
Proof. apply push_unbound. Qed.

Lemma push_unregistered_raises_witness :
  push 1 (PyStr "hello1") empty_heap = Raise AttributeError empty_heap.
Proof. apply push_unregistered_raises. reflexivity. Defined.

(** ** Registration *)

Lemma filter_eq_notin (d : nat) (l : list nat) :
  d ∉ l → filter (λ x, x = d) l = [].
Proof.
  induction l as [|o l IH]; intros Hd; [done|].
  apply not_elem_of_cons in Hd as [Hne Hl].
  rewrite filter_cons_False by congruence. by apply IH.
Qed.

Lemma filter_eq_NoDup_length (d : nat) (l : list nat) :
  NoDup l → d ∈ l → length (filter (λ x, x = d) l) = 1.
Proof.
  induction 1 as [|o l Hnotin Hnd IH]; intros Hd.
  - by apply not_elem_of_nil in Hd.
  - destruct (decide (o = d)) as [->|Hne].
    + rewrite filter_cons_True by done.
      by rewrite filter_eq_notin.
    + rewrite filter_cons_False by done. apply IH.
      apply elem_of_cons in Hd as [?|?]; [congruence|done].
Qed.

(** A member of a registry is a member exactly once. *)
Lemma memberships_member h s d :
  d ∈ _observers (subject_at h s) → memberships h s d = 1.
Proof.
  intros Hd. unfold memberships.
  apply filter_eq_NoDup_length; [apply NoDup_elements|].
  by apply elem_of_elements.
Qed.

(** C3. Registration is idempotent on the registry: after [s.register(d)]
    twice, from any store, the registry is the one the first call left, [d]
    is a member exactly once, and one [setState(v)] runs [d.update] exactly
    once, with [v]; each of the two calls leaves the back-reference of [d] at
    [s], whatever it was before. *)
Theorem registration_idempotent s d v h :
  ∃ h1 h2 h3,
    register s d h = Ok () h1
    ∧ register s d h1 = Ok () h2
    ∧ _observers (subject_at h2 s) = _observers (subject_at h1 s)
    ∧ memberships h2 s d = 1
    ∧ _subject (observer_at h1 d) = Some s
    ∧ _subject (observer_at h2 d) = Some s
    ∧ subject_state_setter s v h2 = Ok () h3
    ∧ updates_of d h3 = updates_of d h2 ++ [v].
Proof.
  destruct (register_spec s d h) as (h1 & E1 & R1).
  destruct (register_spec s d h1) as (h2 & E2 & R2).
  destruct (subject_state_setter_spec s v h2) as (h3 & E3 & Hset).
  assert (d ∈ _observers (subject_at h2 s)) as Hd.
  { rewrite (reg_registry _ _ _ _ R2). set_solver. }
  exists h1, h2, h3. repeat split; try done.
  - rewrite (reg_registry _ _ _ _ R2), (reg_registry _ _ _ _ R1).
    by rewrite (assoc_L (∪)), (idemp_L (∪)).
  - by apply memberships_member.
  - by apply (reg_backref _ _ _ _ R1).
  - by apply (reg_backref _ _ _ _ R2).
  - rewrite (state_set_updates _ _ _ _ d Hset). by rewrite decide_True.
Qed.

(** ** Deregistration *)

(** How one call changes a registry. *)
Lemma exec_registry c h s :
  _observers (subject_at (heap_of (exec c h)) s) =
  match c with
  | Register s' d =>
      if decide (s' = s) then {[d]} ∪ _observers (subject_at h s)
      else _observers (subject_at h s)
  | DeRegister s' d =>
      if decide (s' = s) then _observers (subject_at h s) ∖ {[d]}
      else _observers (subject_at h s)
  | SetState _ _ | Push _ _ => _observers (subject_at h s)
  end.
Proof.
  destruct c as [s' d|s' d|s' v|d v]; simpl exec.
  - destruct (register_spec s' d h) as (h' & -> & R). simpl.
    destruct (decide (s' = s)) as [->|Hne].
    + apply (reg_registry _ _ _ _ R).
    + by rewrite (reg_frame _ _ _ _ R).
  - destruct (de_register_spec s' d h) as (h' & -> & R). simpl.
    destruct (decide (s' = s)) as [->|Hne].
    + apply (dereg_registry _ _ _ _ R).
    + by rewrite (dereg_frame _ _ _ _ R).
  - destruct (subject_state_setter_spec s' v h) as (h' & -> & R). simpl.
    apply (ss_registry _ _ _ _ R).
  - destruct (_subject (observer_at h d)) as [s'|] eqn:Hb.
    + rewrite (push_bound _ _ _ _ Hb).
      destruct (subject_state_setter_spec s' v h) as (h' & -> & R). simpl.
      apply (ss_registry _ _ _ _ R).
    + by rewrite (push_unbound _ _ _ Hb).
Qed.

(** Only [s.register(d)] can make [d] a member of the registry of [s]. *)
Lemma exec_all_not_member cs h s d :
  Forall (λ c, c ≠ Register s d) cs →
  d ∉ _observers (subject_at h s) →
  d ∉ _observers (subject_at (exec_all cs h) s).
Proof.
  intros Hcs. revert h.
  induction Hcs as [|c cs Hc Hcs IH]; intros h Hd; [done|].
  simpl. apply IH. rewrite exec_registry.
  destruct c as [s' d'|s' d'|s' v|d' v]; try done.
  - destruct (decide (s' = s)) as [->|Hne]; [|done].
    apply not_elem_of_union. split; [|done].
    rewrite elem_of_singleton. intros ->. by apply Hc.
  - destruct (decide (s' = s)) as [->|Hne]; [|done].
    rewrite elem_of_difference. tauto.
Qed.

(** C4. Deregistration: after [s.de_register(d)], from any store, the
    back-reference of [d] is [None] and [d] is not in the registry of [s],
    which has lost [d] and nothing else (so is as before if [d] was absent);
    and whatever calls follow, as long as [d] is not registered with [s]
    again, a [setState] on [s] returns without running [d.update]. *)
Theorem deregistration_clears s d cs v h :
  Forall (λ c, c ≠ Register s d) cs →
  ∃ h1 h2,
    de_register s d h = Ok () h1
    ∧ _subject (observer_at h1 d) = None
    ∧ (d ∉ _observers (subject_at h1 s))
    ∧ _observers (subject_at h1 s) = _observers (subject_at h s) ∖ {[d]}
    ∧ (d ∉ _observers (subject_at h s) →
       _observers (subject_at h1 s) = _observers (subject_at h s))
    ∧ subject_state_setter s v (exec_all cs h1) = Ok () h2
    ∧ updates_of d h2 = updates_of d (exec_all cs h1).
Proof.
  intros Hcs.
  destruct (de_register_spec s d h) as (h1 & E1 & R1).
  destruct (subject_state_setter_spec s v (exec_all cs h1))
    as (h2 & E2 & Hset).
  assert (d ∉ _observers (subject_at h1 s)) as Hd1.
  { rewrite (dereg_registry _ _ _ _ R1), elem_of_difference, elem_of_singleton.
    tauto. }
  exists h1, h2. repeat split; try done.
  - by apply (dereg_backref _ _ _ _ R1).
  - by apply (dereg_registry _ _ _ _ R1).
  - intros Hout. rewrite (dereg_registry _ _ _ _ R1).
    apply set_eq. intros x. rewrite elem_of_difference, elem_of_singleton.
    split; [tauto|]. intros Hx. split; [done|]. by intros ->.
  - rewrite (state_set_updates _ _ _ _ d Hset).
    rewrite decide_False by (by apply exec_all_not_member).
    by rewrite app_nil_r.
Qed.

Lemma deregistration_clears_witness :
  ∃ h1 h2,
    de_register 0 2 two_registered = Ok () h1
    ∧ _subject (observer_at h1 2) = None
    ∧ subject_state_setter 0 (PyStr "hello2")
        (exec_all [SetState 0 (PyStr "x"); Push 1 (PyStr "y")] h1) = Ok () h2
    ∧ updates_of 2 h2 = [].
Proof.
  destruct (deregistration_clears 0 2
              [SetState 0 (PyStr "x"); Push 1 (PyStr "y")]
              (PyStr "hello2") two_registered)
    as (h1 & h2 & E1 & Hb & _ & _ & _ & E2 & Hupd).
  - repeat constructor; discriminate.
  - exists h1, h2. split; [exact E1|]. split; [exact Hb|].
    split; [exact E2|]. rewrite Hupd.
    injection E1 as <-. vm_compute. reflexivity.
Defined.

(** ** Several hubs *)

(** C9. Deregistering from a hub the dependent is not registered with: for
    [d] in the registry of hub [a] and another hub [b], [b.de_register(d)]
    sets the back-reference of [d] to [None] (whether or not [d] is in the
    registry of [b]) and leaves hub [a] as it was, registry included; a later
    [a.setState(v)] still runs [d.update(v)], and the back-reference of [d]
    is [None] throughout. *)
Theorem deregister_from_other_hub a b d v h :
  a ≠ b →
  d ∈ _observers (subject_at h a) →
  ∃ h1 h2,
    de_register b d h = Ok () h1
    ∧ _subject (observer_at h1 d) = None
    ∧ subject_at h1 a = subject_at h a
    ∧ subject_state_setter a v h1 = Ok () h2
    ∧ updates_of d h2 = updates_of d h1 ++ [v]
    ∧ _observer_state (observer_at h2 d) = v
    ∧ _subject (observer_at h2 d) = None.
Proof.
  intros Hab Hd.
  destruct (de_register_spec b d h) as (h1 & E1 & R1).
  destruct (subject_state_setter_spec a v h1) as (h2 & E2 & Hset).
  assert (subject_at h1 a = subject_at h a) as Ha
    by (by apply (dereg_frame _ _ _ _ R1)).
  assert (d ∈ _observers (subject_at h1 a)) as Hd1 by (by rewrite Ha).
  exists h1, h2. repeat split; try done.
  - by apply (dereg_backref _ _ _ _ R1).
  - rewrite (state_set_updates _ _ _ _ d Hset). by rewrite decide_True.
  - by apply (ss_seen _ _ _ _ Hset).
  - rewrite (ss_backref _ _ _ _ Hset). by apply (dereg_backref _ _ _ _ R1).
Qed.

Lemma deregister_from_other_hub_witness :
  ∃ h1 h2,
    de_register 7 2 two_registered = Ok () h1
    ∧ _subject (observer_at h1 2) = None
    ∧ subject_state_setter 0 (PyInt 5) h1 = Ok () h2
    ∧ updates_of 2 h2 = [PyInt 5].
Proof.
  destruct (deregister_from_other_hub 0 7 2 (PyInt 5) two_registered)
    as (h1 & h2 & E1 & Hb & _ & E2 & Hupd & _).
  - discriminate.
  - vm_compute. set_solver.
  - exists h1, h2. split; [exact E1|]. split; [exact Hb|].
    split; [exact E2|]. rewrite Hupd.
    injection E1 as <-. vm_compute. reflexivity.
Defined.

(** C10. Registering with a second hub: for [d] in the registry of hub [a]
    and another hub [b], [b.register(d)] sets the back-reference of [d] to
    [b] and leaves [d] in the registry of [a], so [d] is in both registries;
    [setState] on either hub runs [d.update]; and [d.push(x)] sets the state
    of [b] to [x] and leaves every other hub, [a] among them, as it was. *)
Theorem register_with_second_hub a b d v x h :
  a ≠ b →
  d ∈ _observers (subject_at h a) →
  ∃ h1 ha hb hp,
    register b d h = Ok () h1
    ∧ _subject (observer_at h1 d) = Some b
    ∧ d ∈ _observers (subject_at h1 a)
    ∧ d ∈ _observers (subject_at h1 b)
    ∧ subject_state_setter a v h1 = Ok () ha
    ∧ updates_of d ha = updates_of d h1 ++ [v]
    ∧ subject_state_setter b v h1 = Ok () hb
    ∧ updates_of d hb = updates_of d h1 ++ [v]
    ∧ push d x h1 = Ok () hp
    ∧ _subject_state (subject_at hp b) = x
    ∧ ∀ s, s ≠ b → subject_at hp s = subject_at h1 s.
Proof.
  intros Hab Hd.
  destruct (register_spec b d h) as (h1 & E1 & R1).
  destruct (subject_state_setter_spec a v h1) as (ha & Ea & Hseta).
  destruct (subject_state_setter_spec b v h1) as (hb & Eb & Hsetb).
  destruct (subject_state_setter_spec b x h1) as (hp & Ep & Hsetp).
  assert (_subject (observer_at h1 d) = Some b) as Hb
    by apply (reg_backref _ _ _ _ R1).
  assert (d ∈ _observers (subject_at h1 a)) as Hda
    by (by rewrite (reg_frame _ _ _ _ R1)).
  assert (d ∈ _observers (subject_at h1 b)) as Hdb.
  { rewrite (reg_registry _ _ _ _ R1), elem_of_union, elem_of_singleton.
    by left. }
  exists h1, ha, hb, hp. repeat split; try done.
  - rewrite (state_set_updates _ _ _ _ d Hseta). by rewrite decide_True.
  - rewrite (state_set_updates _ _ _ _ d Hsetb). by rewrite decide_True.
  - by rewrite (push_bound _ _ _ _ Hb).
  - by apply (ss_state _ _ _ _ Hsetp).
  - by apply (ss_frame _ _ _ _ Hsetp).
Qed.

Lemma register_with_second_hub_witness :
  ∃ h1 hp,
    register 7 2 two_registered = Ok () h1
    ∧ _subject (observer_at h1 2) = Some 7
    ∧ push 2 (PyInt 5) h1 = Ok () hp
    ∧ _subject_state (subject_at hp 7) = PyInt 5
    ∧ subject_at hp 0 = subject_at h1 0.
Proof.
  destruct (register_with_second_hub 0 7 2 PyNone (PyInt 5) two_registered)
    as (h1 & _ & _ & hp & E1 & Hb & _ & _ & _ & _ & _ & _ & Ep & Hst & Hfr).
  - discriminate.
  - vm_compute. set_solver.
  - exists h1, hp. split; [exact E1|]. split; [exact Hb|].
    split; [exact Ep|]. split; [exact Hst|]. by apply Hfr.
Defined.

(** ** Registries and back-references in reachable stores *)

(** How one call changes a back-reference. *)
Lemma exec_backref c h d :
  _subject (observer_at (heap_of (exec c h)) d) =
  match c with
  | Register s d' =>
      if decide (d' = d) then Some s else _subject (observer_at h d)
  | DeRegister s d' =>
      if decide (d' = d) then None else _subject (observer_at h d)
  | SetState _ _ | Push _ _ => _subject (observer_at h d)
  end.
Proof.
  destruct c as [s' d'|s' d'|s' v|d' v]; simpl exec.
  - destruct (register_spec s' d' h) as (h' & -> & R). simpl.
    destruct (decide (d' = d)) as [->|Hne].
    + apply (reg_backref _ _ _ _ R).
    + by rewrite (reg_others _ _ _ _ R).
  - destruct (de_register_spec s' d' h) as (h' & -> & R). simpl.
    destruct (decide (d' = d)) as [->|Hne].
    + apply (dereg_backref _ _ _ _ R).
    + by rewrite (dereg_others _ _ _ _ R).
  - destruct (subject_state_setter_spec s' v h) as (h' & -> & R). simpl.
    apply (ss_backref _ _ _ _ R).
  - destruct (_subject (observer_at h d')) as [s'|] eqn:Hb.
    + rewrite (push_bound _ _ _ _ Hb).
      destruct (subject_state_setter_spec s' v h) as (h' & -> & R). simpl.
      apply (ss_backref _ _ _ _ R).
    + by rewrite (push_unbound _ _ _ Hb).
Qed.

(** Whatever the client does, a dependent that names a hub is in that hub's
    registry. *)
Lemma exec_backrefs_registered c h :
  backrefs_registered h → backrefs_registered (heap_of (exec c h)).
Proof.
  intros Hinv s d. rewrite exec_backref, exec_registry.
  destruct c as [s' d'|s' d'|s' v|d' v]; try apply Hinv.
  - destruct (decide (d' = d)) as [->|Hne].
    + intros [= ->]. rewrite decide_True by done.
      rewrite elem_of_union, elem_of_singleton. by left.
    + intros Hb%Hinv. destruct (decide (s' = s)); [|done].
      rewrite elem_of_union. by right.
  - destruct (decide (d' = d)) as [->|Hne]; [done|].
    intros Hb%Hinv. destruct (decide (s' = s)); [|done].
    rewrite elem_of_difference, elem_of_singleton. split; [done|congruence].
Qed.

Lemma exec_all_backrefs_registered cs h :
  backrefs_registered h → backrefs_registered (exec_all cs h).
Proof.
  revert h. induction cs as [|c cs IH]; intros h Hinv; [done|].
  simpl. apply IH. by apply exec_backrefs_registered.
Qed.

Lemma reachable_backrefs_registered cs :
  backrefs_registered (exec_all cs empty_heap).
Proof. apply exec_all_backrefs_registered. intros s d [=]. Qed.

(** An admissible call keeps the members pointing back. *)
Lemma exec_admissible c h :
  admissible c h →
  backrefs_consistent h → backrefs_consistent (heap_of (exec c h)).
Proof.
  intros Hc Hinv s d. rewrite exec_backref, exec_registry.
  destruct c as [s' d'|s' d'|s' v|d' v]; simpl in Hc; try apply Hinv.
  - destruct (decide (s' = s)) as [->|Hs].
    + rewrite elem_of_union, elem_of_singleton. intros [->|Hd].
      * by rewrite decide_True.
      * destruct (decide (d' = d)); [done|]. by apply Hinv.
    + intros Hd. destruct (decide (d' = d)) as [->|]; [|by apply Hinv].
      exfalso. apply (Hc s); [congruence|done].
  - destruct (decide (s' = s)) as [->|Hs].
    + rewrite elem_of_difference, elem_of_singleton. intros [Hd Hne].
      rewrite decide_False by congruence. by apply Hinv.
    + intros Hd. destruct (decide (d' = d)) as [->|]; [|by apply Hinv].
      exfalso. apply (Hc s); [congruence|done].
Qed.

Lemma exec_all_admissible cs h :
  all_admissible cs h →
  backrefs_consistent h → backrefs_consistent (exec_all cs h).
Proof.
  revert h. induction cs as [|c cs IH]; intros h; simpl; [done|].
  intros [Hc Hcs] Hinv. apply IH; [done|]. by apply exec_admissible.
Qed.

(** The guard cannot be dropped for any single call: handing to one hub a
    dependent that another hub has in its registry, by [register] or by
    [de_register], leaves that other registry with a member that does not
    point back. *)
Lemma inadmissible_call_breaks s s' d h :
  s' ≠ s → d ∈ _observers (subject_at h s') →
  ¬ backrefs_consistent (heap_of (exec (Register s d) h))
  ∧ ¬ backrefs_consistent (heap_of (exec (DeRegister s d) h)).
Proof.
  intros Hne Hd. split; intros Hinv; specialize (Hinv s' d);
    rewrite exec_backref, exec_registry in Hinv;
    rewrite decide_False in Hinv by congruence;
    rewrite decide_True in Hinv by done;
    specialize (Hinv Hd); congruence.
Qed.

(** The check that runs is sound. *)
Lemma admissible_b_sound c h : admissible_b c h = true → admissible c h.
Proof.
  assert (∀ s d,
    map_Forall (λ s' sb, s' = s ∨ d ∉ _observers sb) (subjects h) →
    in_no_other_registry h s d) as Hgo.
  { intros s d Hall s' Hne. unfold subject_at.
    destruct (subjects h !! s') as [sb|] eqn:Hsb; simpl.
    - by destruct (Hall _ _ Hsb).
    - apply not_elem_of_empty. }
  destruct c as [s d|s d|s v|d v]; simpl; try done.
  - intros Hb%bool_decide_eq_true. by apply Hgo.
  - intros Hb%bool_decide_eq_true. by apply Hgo.
Qed.

Lemma all_admissible_b_sound cs h :
  all_admissible_b cs h = true → all_admissible cs h.
Proof.
  revert h. induction cs as [|c cs IH]; intros h; simpl; [done|].
  intros [Hc Hcs]%andb_prop. split; [by apply admissible_b_sound|by apply IH].
Qed.

(** The check turns down the second [register] of the sequence below. *)
Lemma all_admissible_b_two_hubs :
  all_admissible_b [Register 0 2; Register 1 2] empty_heap = false.
Proof. vm_compute. reflexivity. Qed.

(** C5, as stated, fails: with two hubs 0 and 1, after [0.register(2)] and
    [1.register(2)] the dependent 2 is still in the registry of hub 0 while
    its back-reference names hub 1. *)
Lemma backrefs_inconsistent_two_hubs :
  ¬ backrefs_consistent (exec_all [Register 0 2; Register 1 2] empty_heap).
Proof.
  intros H. specialize (H 0 2).
  assert (2 ∈ _observers
            (subject_at (exec_all [Register 0 2; Register 1 2] empty_heap) 0))
    as Hin by (vm_compute; set_solver).
  apply H in Hin. vm_compute in Hin. discriminate.
Qed.

(** C5, amended. In every store reached from fresh hubs and dependents by a
    sequence of [register], [de_register], [setState] and [push] calls,
    possibly on several hubs, in which a dependent is handed to [register]
    or [de_register] of a hub only while it is in the registry of no other
    hub, every member of each hub's registry has its back-reference pointing
    at that hub.  (A dependent may move from hub to hub, deregistered from
    the one before it is registered with the next.) *)
Theorem backrefs_consistent_when_admissible cs :
  all_admissible cs empty_heap →
  backrefs_consistent (exec_all cs empty_heap).
Proof.
  intros Hcs. apply exec_all_admissible; [done|].
  intros s d Hin. by apply not_elem_of_empty in Hin.
Qed.

Lemma backrefs_consistent_when_admissible_witness :
  backrefs_consistent
    (exec_all [Register 0 2; DeRegister 0 2; Register 1 2; Register 1 3;
               SetState 1 (PyInt 1); Register 0 4; Push 2 (PyInt 3);
               DeRegister 1 3] empty_heap).
Proof.
  apply backrefs_consistent_when_admissible.
  apply all_admissible_b_sound. vm_compute. reflexivity.
Defined.

End ObserverFacts.

(** * Facts about the singleton accessor *)

Module SingletonFacts.
Import Singleton.

(** ** One caller at a time *)

(** The fast path: an initialized class is returned as it is, the lock not
    even looked at. *)
Lemma get_cls_instance_initialized c i :
  __app_instance c = Some i → get_cls_instance c = Returns (Some i) c.
Proof. intros Hi. unfold get_cls_instance. by rewrite Hi. Qed.

Lemma get_cls_instances_initialized n c i :
  __app_instance c = Some i →
  get_cls_instances n c = Some (replicate n (Some i), c).
Proof.
  intros Hi. induction n as [|n IH]; [done|].
  simpl. rewrite (get_cls_instance_initialized _ _ Hi). by rewrite IH.
Qed.

(** The slow path: with the lock free, an uninitialized class gets one new
    instance. *)
Lemma get_cls_instance_uninitialized c :
  __app_instance c = None → __singleton_lock c = false →
  get_cls_instance c =
  Returns (Some (constructed c))
          {| __singleton_lock := false;
             __app_instance := Some (constructed c);
             constructed := S (constructed c) |}.
Proof.
  intros Hi Hl. unfold get_cls_instance. rewrite Hi, Hl. simpl.
  by rewrite Hi.
Qed.

(** A caller running alone through the steps of the threaded model does what
    [get_cls_instance] says. *)
Lemma solo_run_agrees c r c' :
  get_cls_instance c = Returns r c' →
  ∃ k, run (replicate k 0) {| cls := c; threads := [L40] |}
       = Some {| cls := c'; threads := [Done r] |}.
Proof.
  destruct c as [l [i|] n]; unfold get_cls_instance; simpl.
  - intros [= <- <-]. by exists 2.
  - destruct l; [done|]. intros [= <- <-]. by exists 7.
Qed.

(** C7. Once initialized, always the same instance: a call on a class whose
    lock is free, or that is already initialized, returns an instance [i],
    which is the stored instance from then on; it has run the constructor
    once if the class was uninitialized and not at all otherwise; and any
    number [n] of later calls all return [i] and leave the class exactly as
    it was, stored instance and construction count included. *)
Theorem singleton_instance_stable c n :
  __singleton_lock c = false ∨ __app_instance c ≠ None →
  ∃ i c',
    get_cls_instance c = Returns (Some i) c'
    ∧ __app_instance c' = Some i
    ∧ constructed c' = (if not_ (__app_instance c) then S (constructed c)
                        else constructed c)
    ∧ get_cls_instances n c' = Some (replicate n (Some i), c').
Proof.
  intros Hc. destruct (__app_instance c) as [i|] eqn:Hi.
  - exists i, c. rewrite (get_cls_instance_initialized _ _ Hi).
    repeat split; try done. by apply get_cls_instances_initialized.
  - destruct Hc as [Hl|?]; [|done].
    rewrite (get_cls_instance_uninitialized _ Hi Hl).
    eexists _, _. split; [reflexivity|]. repeat split.
    by apply get_cls_instances_initialized.
Qed.

(** The script at the end of the module: [s1 == s2]. *)
Lemma script_same_instance :
  ∃ c, get_cls_instances 2 Uninitialized = Some ([Some 0; Some 0], c).
Proof. by eexists. Qed.

Lemma singleton_instance_stable_witness :
  ∃ c',
    get_cls_instance Uninitialized = Returns (Some 0) c'
    ∧ constructed c' = 1
    ∧ get_cls_instances 3 c' = Some ([Some 0; Some 0; Some 0], c').
Proof.
  destruct (singleton_instance_stable Uninitialized 3)
    as (i & c' & Hret & Hi & Hn & Hlater).
  - left. reflexivity.
  - assert (i = 0) as -> by (vm_compute in Hret; congruence).
    exists c'. split; [exact Hret|]. split; [exact Hn|]. exact Hlater.
Defined.

(** ** Several callers at once *)

Lemma spawn_inv N : inv (spawn N).
Proof.
  split; [by left|]. exists None. split; [done|]. split; [done|].
  intros t p [-> _]%lookup_replicate. done.
Qed.

Lemma lookup_step_thread (ths : list pc) t p p' t' q :
  ths !! t = Some p →
  <[t := p']> ths !! t' = Some q →
  (t' = t ∧ q = p') ∨ (t' ≠ t ∧ ths !! t' = Some q).
Proof.
  intros Ht Hq. destruct (decide (t' = t)) as [->|Hne].
  - left. split; [done|].
    rewrite list_lookup_insert_eq in Hq by (by eapply lookup_lt_Some).
    congruence.
  - right. split; [done|]. by rewrite list_lookup_insert_ne in Hq.
Qed.

(** The stepping thread is checked at its new point, the others against the
    new class and the new holder. *)
Lemma holder_ok_step c ths t p c' p' o o' :
  ths !! t = Some p →
  (∀ t' q, ths !! t' = Some q →
     (in_critical_section q = true ↔ o = Some t') ∧ thread_ok c q) →
  (∀ t0, o = Some t0 → is_Some (ths !! t0)) →
  __singleton_lock c' = lock_of o' →
  (o' = o ∨ o' = Some t ∨ o' = None) →
  (in_critical_section p' = true ↔ o' = Some t) →
  thread_ok c' p' →
  (∀ t' q, t' ≠ t → ths !! t' = Some q →
     (in_critical_section q = true ↔ o = Some t') → thread_ok c q →
     (in_critical_section q = true ↔ o' = Some t') ∧ thread_ok c' q) →
  holder_ok o' {| cls := c'; threads := <[t := p']> ths |}.
Proof.
  intros Ht Hths Hin Hlock Ho' Hcs Hp Hothers. split; [exact Hlock|]. simpl.
  split.
  { intros t0 Ht0. apply lookup_lt_is_Some. rewrite length_insert.
    apply lookup_lt_is_Some.
    destruct Ho' as [-> | [-> | ->]]; [by apply Hin| |done].
    injection Ht0 as <-. by exists p. }
  intros t' q Hq.
  destruct (lookup_step_thread _ _ _ _ _ _ Ht Hq) as [[-> ->]|[Hne Hq']].
  - done.
  - destruct (Hths _ _ Hq') as [Hcs' Hq'']. by apply Hothers.
Qed.

(** A step that neither stores the instance nor constructs leaves
    [class_ok] as it is. *)
Lemma class_ok_frame c c' ths t p p' :
  ths !! t = Some p →
  (∀ obj, p ≠ L43_store obj) →
  __app_instance c' = __app_instance c →
  constructed c' = constructed c →
  class_ok {| cls := c; threads := ths |} →
  class_ok {| cls := c'; threads := <[t := p']> ths |}.
Proof.
  unfold class_ok; simpl. intros Ht Hp -> ->.
  destruct (__app_instance c); [done|].
  intros [?|[? [t0 Ht0]]]; [by left|]. right. split; [done|].
  exists t0. rewrite list_lookup_insert_ne; [done|].
  intros ->. rewrite Ht in Ht0. injection Ht0 as ->. by eapply Hp.
Qed.

Lemma sched_step_inv t w w' :
  sched_step t w = Some w' → inv w → inv w'.
Proof.
  unfold sched_step.
  destruct (threads w !! t) as [p|] eqn:Ht; [|done].
  destruct (thread_step (cls w) p) as [[c' p']|] eqn:Hstep; [|done].
  intros [= <-] [Hcls (o & Hlock & Hin & Hths)].
  destruct (Hths _ _ Ht) as [Hcs Hp].
  destruct w as [c ths]; simpl in *.
  pose proof (holder_ok_step c ths t p) as Hgo.
  destruct p; simpl in Hstep, Hcs, Hp.
  - (* line 40: the unlocked read *)
    injection Hstep as <- <-. split; [by eapply class_ok_frame|].
    exists o. apply (Hgo _ _ o o Ht Hths Hin Hlock); [by left|..].
    + by destruct (__app_instance c).
    + unfold class_ok in Hcls; simpl in Hcls.
      destruct (__app_instance c) as [i|] eqn:Hi; simpl; [|done].
      by destruct Hcls as [-> _].
    + by intros.
  - (* line 41: acquire *)
    destruct (__singleton_lock c) eqn:Hl; [done|].
    injection Hstep as <- <-. split; [by eapply class_ok_frame|].
    destruct o as [?|]; simpl in Hlock; [discriminate|].
    exists (Some t). apply (Hgo _ _ None (Some t) Ht Hths Hin).
    + done.
    + right. by left.
    + done.
    + done.
    + intros t' q Hne Hq Hq1 Hq2. split; [|by destruct q].
      rewrite Hq1. split; [done|]. by intros [= ->].
  - (* line 42: the read under the lock *)
    injection Hstep as <- <-. split; [by eapply class_ok_frame|].
    exists o. apply (Hgo _ _ o o Ht Hths Hin Hlock); [by left|..].
    + by destruct (__app_instance c).
    + unfold class_ok in Hcls; simpl in Hcls.
      destruct (__app_instance c) as [i|] eqn:Hi; simpl;
        [by destruct Hcls as [-> _]|].
      split; [done|].
      destruct Hcls as [?|[? [t0 Ht0]]]; [done|].
      destruct (Hths _ _ Ht0) as [Hcs0 _]. simpl in Hcs0.
      assert (o = Some t0) as Ho0 by (by apply Hcs0).
      assert (o = Some t) as Ho by (by apply Hcs).
      assert (t0 = t) as -> by congruence. congruence.
    + by intros.
  - (* line 43: the construction *)
    injection Hstep as <- <-. destruct Hp as [Hi Hn]. split.
    { unfold class_ok; simpl. rewrite Hi, Hn. right. split; [done|].
      exists t. apply list_lookup_insert_eq. by eapply lookup_lt_Some. }
    exists o. apply (Hgo _ _ o o Ht Hths Hin); [exact Hlock|by left|..].
    + done.
    + simpl. by rewrite Hn.
    + intros t' q Hne Hq Hq1 Hq2. split; [done|].
      assert (o = Some t) as Ho by (by apply Hcs).
      destruct q; simpl in *; try done;
        (assert (o = Some t') by (by apply Hq1); congruence).
  - (* line 43: the store *)
    injection Hstep as <- <-. destruct Hp as (-> & Hi & Hn). split.
    { unfold class_ok; simpl. done. }
    exists o. apply (Hgo _ _ o o Ht Hths Hin); [exact Hlock|by left|..].
    + done.
    + done.
    + intros t' q Hne Hq Hq1 Hq2. split; [done|].
      assert (o = Some t) as Ho by (by apply Hcs).
      destruct q; simpl in *; try done; try congruence;
        try (destruct Hq2; congruence);
        (assert (o = Some t') by (by apply Hq1); congruence).
  - (* line 44: release *)
    assert (o = Some t) as -> by (by apply Hcs).
    rewrite Hlock in Hstep. simpl in Hstep.
    injection Hstep as <- <-. split; [by eapply class_ok_frame|].
    exists None. apply (Hgo _ _ (Some t) None Ht Hths Hin).
    + done.
    + right. by right.
    + simpl. split; [done|]. intros [=].
    + done.
    + intros t' q Hne Hq Hq1 Hq2. split; [|by destruct q].
      rewrite Hq1. split; [|done]. by intros [= ->].
  - (* line 46: the return *)
    injection Hstep as <- <-. split; [by eapply class_ok_frame|].
    exists o. apply (Hgo _ _ o o Ht Hths Hin Hlock); [by left|..].
    + done.
    + done.
    + by intros.
  - done.
  - done.
Qed.

Lemma run_inv schedule w w' :
  run schedule w = Some w' → inv w → inv w'.
Proof.
  revert w. induction schedule as [|t schedule IH]; intros w; simpl.
  - by intros [= <-].
  - destruct (sched_step t w) as [w1|] eqn:Hstep; [|done].
    intros Hrun Hinv. apply (IH w1 Hrun). by eapply sched_step_inv.
Qed.

(** Every step uses up work. *)
Lemma thread_step_steps_left c p c' p' :
  thread_step c p = Some (c', p') → steps_left p' < steps_left p.
Proof.
  destruct p; simpl; try done.
  - intros [= <- <-]. destruct (not_ (__app_instance c)); simpl; lia.
  - destruct (__singleton_lock c); [done|]. intros [= <- <-]. simpl. lia.
  - intros [= <- <-]. destruct (not_ (__app_instance c)); simpl; lia.
  - intros [= <- <-]. simpl. lia.
  - intros [= <- <-]. simpl. lia.
  - destruct (__singleton_lock c); intros [= <- <-]; simpl; lia.
  - intros [= <- <-]. simpl. lia.
Qed.

Lemma sum_list_steps_insert (ths : list pc) t p p' :
  ths !! t = Some p →
  sum_list (steps_left <$> <[t := p']> ths) + steps_left p
  = sum_list (steps_left <$> ths) + steps_left p'.
Proof.
  revert t. induction ths as [|q ths IH]; intros [|t]; csimpl; try done.
  - intros [= ->]. lia.
  - intros Ht. specialize (IH _ Ht). lia.
Qed.

Lemma sched_step_work_left t w w' :
  sched_step t w = Some w' → work_left w' < work_left w.
Proof.
  unfold sched_step, work_left.
  destruct (threads w !! t) as [p|] eqn:Ht; [|done].
  destruct (thread_step (cls w) p) as [[c' p']|] eqn:Hstep; [|done].
  intros [= <-]. simpl.
  pose proof (thread_step_steps_left _ _ _ _ Hstep).
  pose proof (sum_list_steps_insert _ _ _ p' Ht). lia.
Qed.

Lemma sched_step_length t w w' :
  sched_step t w = Some w' → length (threads w') = length (threads w).
Proof.
  unfold sched_step.
  destruct (threads w !! t) as [p|]; [|done].
  destruct (thread_step (cls w) p) as [[c' p']|]; [|done].
  intros [= <-]. simpl. apply length_insert.
Qed.

Lemma run_work_left schedule w w' :
  run schedule w = Some w' →
  length schedule + work_left w' ≤ work_left w
  ∧ length (threads w') = length (threads w).
Proof.
  revert w. induction schedule as [|t schedule IH]; intros w; simpl.
  - intros [= <-]. split; [lia|done].
  - destruct (sched_step t w) as [w1|] eqn:Hstep; [|done].
    intros Hrun. destruct (IH _ Hrun) as [IH1 IH2].
    pose proof (sched_step_work_left _ _ _ Hstep).
    pose proof (sched_step_length _ _ _ Hstep). split; [lia|congruence].
Qed.

Lemma work_left_spawn N : work_left (spawn N) = 7 * N.
Proof.
  unfold work_left, spawn; simpl.
  induction N as [|N IH]; csimpl; [done|]. rewrite IH. lia.
Qed.

(** A thread that has not returned is never stuck for good: it can step, or
    the holder of the lock it waits for can. *)
Lemma inv_progress w t p :
  inv w → threads w !! t = Some p → returned p = false →
  ∃ t' w', sched_step t' w = Some w'.
Proof.
  intros [_ (o & Hlock & Hin & Hths)] Ht Hp.
  assert (∀ t0 p0, threads w !! t0 = Some p0 →
            is_Some (thread_step (cls w) p0) →
            ∃ t' w', sched_step t' w = Some w') as Hgo.
  { intros t0 p0 Ht0 [[c' p'] Hs]. exists t0. unfold sched_step.
    rewrite Ht0, Hs. by eexists. }
  destruct (Hths _ _ Ht) as [_ Hok].
  destruct p; simpl in Hp, Hok; try done;
    try (apply (Hgo _ _ Ht); simpl; by eexists).
  - (* waiting at line 41 *)
    destruct o as [t0|].
    + destruct (Hin t0 eq_refl) as [p0 Ht0].
      destruct (Hths _ _ Ht0) as [Hcs0 _].
      assert (in_critical_section p0 = true) as Hcs by (by apply Hcs0).
      apply (Hgo _ _ Ht0).
      destruct p0; simpl in Hcs; try done; simpl; try by eexists.
      destruct (__singleton_lock (cls w)); by eexists.
    + apply (Hgo _ _ Ht). simpl. rewrite Hlock. simpl. by eexists.
  - (* line 44 *)
    apply (Hgo _ _ Ht). simpl.
    destruct (__singleton_lock (cls w)); by eexists.
Qed.

(** When every thread has returned, each has returned object 0. *)
Lemma inv_all_returned w :
  inv w → Forall (λ p, returned p = true) (threads w) →
  threads w = replicate (length (threads w)) (Done (Some 0)).
Proof.
  intros [_ (o & _ & _ & Hths)] Hall. symmetry.
  apply replicate_as_Forall. split; [done|].
  apply Forall_lookup. intros t p Ht.
  destruct (Hths _ _ Ht) as [_ Hok].
  rewrite Forall_lookup in Hall. specialize (Hall _ _ Ht).
  destruct p; simpl in Hall; try done. by destruct Hok as [-> _].
Qed.

(** From wherever the threads are, some continuation of the run brings
    every caller to its [return]. *)
Lemma run_completes w :
  inv w →
  ∃ schedule w', run schedule w = Some w'
    ∧ threads w' = replicate (length (threads w)) (Done (Some 0)).
Proof.
  remember (work_left w) as n eqn:Hn. revert w Hn.
  induction (lt_wf n) as [n _ IH]. intros w -> Hinv.
  destruct (decide (Forall (λ p, returned p = true) (threads w)))
    as [Hall|Hnot].
  - exists [], w. split; [done|]. by apply inv_all_returned.
  - apply not_Forall_Exists in Hnot; [|apply _].
    apply Exists_exists in Hnot as (p & Hp & Hret).
    apply list_elem_of_lookup in Hp as [t Ht].
    destruct (inv_progress w t p Hinv Ht) as (t' & w1 & Hstep).
    { simpl in Hret. by destruct (returned p). }
    destruct (IH (work_left w1) (sched_step_work_left _ _ _ Hstep) w1 eq_refl)
      as (schedule & w' & Hrun & Hdone).
    { by eapply sched_step_inv. }
    exists (t' :: schedule), w'. split.
    + simpl. by rewrite Hstep.
    + rewrite Hdone. by rewrite (sched_step_length _ _ _ Hstep).
Qed.

(** C8. [N] callers at once, their steps interleaved in any order: at every
    point of every run at most one [Singleton()] has been constructed, every
    caller that has returned has returned that one object, and no [release()]
    has failed; a thread between [acquire()] and [release()], recheck and
    construction included, holds the lock and is alone there; the read at
    line 40 can always be taken, whatever the lock, and takes no lock; no run
    has more than [7 * N] steps, a thread that has not returned never blocks
    the run, and every run can be continued until all [N] callers have
    returned the one object; a run that cannot be continued is such a run,
    with exactly one construction when there is a caller at all. *)
Theorem singleton_unique_under_concurrency N schedule w :
  run schedule (spawn N) = Some w →
  length (threads w) = N
  ∧ length schedule ≤ 7 * N
  ∧ constructed (cls w) ≤ 1
  ∧ (∀ t r, threads w !! t = Some (Done r) →
       r = Some 0 ∧ constructed (cls w) = 1)
  ∧ (∀ t, threads w !! t ≠ Some RuntimeError)
  ∧ (∀ t p, threads w !! t = Some p → in_critical_section p = true →
       __singleton_lock (cls w) = true
       ∧ ∀ t' p', threads w !! t' = Some p' →
           in_critical_section p' = true → t' = t)
  ∧ (∀ t, threads w !! t = Some L40 →
       ∃ w', sched_step t w = Some w' ∧ cls w' = cls w)
  ∧ (∀ t p, threads w !! t = Some p → returned p = false →
       ∃ t' w', sched_step t' w = Some w')
  ∧ (∃ schedule' w', run schedule' w = Some w'
       ∧ threads w' = replicate N (Done (Some 0)))
  ∧ ((∀ t, sched_step t w = None) →
       threads w = replicate N (Done (Some 0))
       ∧ (0 < N → constructed (cls w) = 1)).
Proof.
  intros Hrun.
  pose proof (run_inv _ _ _ Hrun (spawn_inv N)) as Hinv.
  destruct (run_work_left _ _ _ Hrun) as [Hwork Hlen].
  rewrite work_left_spawn in Hwork. simpl in Hlen.
  rewrite length_replicate in Hlen.
  pose proof Hinv as [Hcls (o & Hlock & Hin & Hths)].
  assert (∀ t r, threads w !! t = Some (Done r) →
            r = Some 0 ∧ constructed (cls w) = 1) as Hdone.
  { intros t r Ht. destruct (Hths _ _ Ht) as [_ [-> Hi]]. split; [done|].
    unfold class_ok in Hcls. rewrite Hi in Hcls. by destruct Hcls. }
  split; [done|]. split; [lia|]. split.
  { unfold class_ok in Hcls. destruct (__app_instance (cls w)).
    - destruct Hcls as [_ ->]. lia.
    - destruct Hcls as [->|[-> _]]; lia. }
  split; [exact Hdone|]. split.
  { intros t Ht. by destruct (Hths _ _ Ht) as [_ ?]. }
  split.
  { intros t p Ht Hcs. destruct (Hths _ _ Ht) as [Ho _].
    assert (o = Some t) as -> by (by apply Ho). split; [done|].
    intros t' p' Ht' Hcs'. destruct (Hths _ _ Ht') as [Ho' _].
    assert (Some t = Some t') by (by apply Ho'). congruence. }
  split.
  { intros t Ht. unfold sched_step. rewrite Ht. simpl. by eexists. }
  split.
  { intros t p Ht Hp. by eapply inv_progress. }
  split.
  { destruct (run_completes w Hinv) as (s' & w' & Hrun' & Hall).
    exists s', w'. by rewrite <- Hlen. }
  intros Hstuck.
  assert (Forall (λ p, returned p = true) (threads w)) as Hall.
  { apply Forall_lookup. intros t p Ht.
    destruct (returned p) eqn:Hp; [done|].
    destruct (inv_progress w t p Hinv Ht Hp) as (t' & w' & Hstep).
    by rewrite Hstuck in Hstep. }
  pose proof (inv_all_returned w Hinv Hall) as Hthreads.
  rewrite Hlen in Hthreads. split; [done|].
  intros HN. apply (Hdone 0 (Some 0)). rewrite Hthreads.
  by apply lookup_replicate.
Qed.

Lemma singleton_unique_under_concurrency_witness :
  run race (spawn 2) = Some after_race
  ∧ threads after_race = replicate 2 (Done (Some 0))
  ∧ constructed (cls after_race) = 1.
Proof.
  assert (run race (spawn 2) = Some after_race) as Hrun by reflexivity.
  destruct (singleton_unique_under_concurrency 2 race after_race Hrun)
    as (_ & _ & _ & _ & _ & _ & _ & _ & _ & Hstuck).
  destruct Hstuck as [Hall Hone].
  - intros [|[|t]]; reflexivity.
  - split; [exact Hrun|]. split; [exact Hall|]. apply Hone. lia.
Defined.

End SingletonFacts.

(** * Further properties of the observer protocol *)

Module ObserverMore.
Import Observer ObserverFacts.

(** ** Errors *)

(** X1. [register], [de_register] and the [subject_state] setter never
    raise; a call raises exactly when it is a [push] by a dependent whose
    back-reference is [None], the exception is then [AttributeError], and
    the store is left as it was found. *)
Theorem raises_only_on_unbound_push c h :
  (is_ok (exec c h) = false
   ↔ ∃ d v, c = Push d v ∧ _subject (observer_at h d) = None)
  ∧ (is_ok (exec c h) = false → exec c h = Raise AttributeError h).
Proof.
  destruct c as [s d|s d|s v|d v]; simpl exec.
  - destruct (register_spec s d h) as (h' & -> & _). simpl.
    split; [|done]. split; [done|]. by intros (? & ? & [=] & _).
  - destruct (de_register_spec s d h) as (h' & -> & _). simpl.
    split; [|done]. split; [done|]. by intros (? & ? & [=] & _).
  - destruct (subject_state_setter_spec s v h) as (h' & -> & _). simpl.
    split; [|done]. split; [done|]. by intros (? & ? & [=] & _).
  - destruct (_subject (observer_at h d)) as [s|] eqn:Hb.
    + rewrite (push_bound _ _ _ _ Hb).
      destruct (subject_state_setter_spec s v h) as (h' & -> & _). simpl.
      split; [|done]. split; [done|].
      intros (d' & v' & [= <- <-] & Hnone). congruence.
    + rewrite (push_unbound _ _ _ Hb). simpl. split; [|done].
      split; [|done]. intros _. by exists d, v.
Qed.

(** X2. After [s.de_register(d)], on whichever hub [s] and from whichever
    store, [d.push(x)] raises [AttributeError] and changes nothing, until
    [d] is registered again. *)
Theorem push_after_de_register_raises s d x h :
  ∃ h1, de_register s d h = Ok () h1
    ∧ push d x h1 = Raise AttributeError h1.
Proof.
  destruct (de_register_spec s d h) as (h1 & E1 & R1).
  exists h1. split; [done|].
  apply push_unbound. apply (dereg_backref _ _ _ _ R1).
Qed.

(** ** Frames *)

(** X3. A [setState] on hub [s] touches nothing outside [s] and its
    registry: every other hub [s'] is as before, and a dependent [d] that is
    not in the registry of [s] keeps both its attributes and has no [update]
    run on it. *)
Theorem set_state_frame s s' d v h :
  s' ≠ s →
  d ∉ _observers (subject_at h s) →
  ∃ h', subject_state_setter s v h = Ok () h'
    ∧ subject_at h' s' = subject_at h s'
    ∧ observer_at h' d = observer_at h d
    ∧ updates_of d h' = updates_of d h.
Proof.
  intros Hs Hd.
  destruct (subject_state_setter_spec s v h) as (h' & E & Hset).
  exists h'. split; [done|]. split; [by apply (ss_frame _ _ _ _ Hset)|].
  split.
  - pose proof (ss_backref _ _ _ _ Hset d) as Hb.
    pose proof (ss_unseen _ _ _ _ Hset d Hd) as Hst.
    destruct (observer_at h' d), (observer_at h d); simpl in *; congruence.
  - rewrite (state_set_updates _ _ _ _ d Hset).
    rewrite decide_False by done. by rewrite app_nil_r.
Qed.

Lemma set_state_frame_witness :
  ∃ h', subject_state_setter 0 (PyInt 4) two_registered = Ok () h'
    ∧ subject_at h' 7 = subject_at two_registered 7
    ∧ observer_at h' 5 = observer_at two_registered 5
    ∧ updates_of 5 h' = updates_of 5 two_registered.
Proof.
  apply (set_state_frame 0 7 5 (PyInt 4) two_registered).
  - discriminate.
  - vm_compute. set_solver.
Defined.

(** X4. Registration and deregistration move no value: neither runs
    [update] on anybody, the state of the hub and the [_observer_state] of
    the dependent stay as they were (a dependent registered late keeps its
    old value until the next [setState]), and all other hubs and dependents
    are untouched. *)
Theorem registration_moves_no_value s d h :
  ∃ h1 h2,
    register s d h = Ok () h1
    ∧ de_register s d h = Ok () h2
    ∧ calls h1 = calls h ∧ calls h2 = calls h
    ∧ _subject_state (subject_at h1 s) = _subject_state (subject_at h s)
    ∧ _subject_state (subject_at h2 s) = _subject_state (subject_at h s)
    ∧ _observer_state (observer_at h1 d) = _observer_state (observer_at h d)
    ∧ _observer_state (observer_at h2 d) = _observer_state (observer_at h d)
    ∧ (∀ s', s' ≠ s →
         subject_at h1 s' = subject_at h s' ∧ subject_at h2 s' = subject_at h s')
    ∧ (∀ d', d' ≠ d →
         observer_at h1 d' = observer_at h d'
         ∧ observer_at h2 d' = observer_at h d').
Proof.
  destruct (register_spec s d h) as (h1 & E1 & R1).
  destruct (de_register_spec s d h) as (h2 & E2 & R2).
  exists h1, h2. split; [done|]. split; [done|].
  split; [apply (reg_calls _ _ _ _ R1)|].
  split; [apply (dereg_calls _ _ _ _ R2)|].
  split; [apply (reg_state _ _ _ _ R1)|].
  split; [apply (dereg_state _ _ _ _ R2)|].
  split; [apply (reg_seen _ _ _ _ R1)|].
  split; [apply (dereg_seen _ _ _ _ R2)|].
  split.
  - intros s' Hs. split;
      [by apply (reg_frame _ _ _ _ R1)|by apply (dereg_frame _ _ _ _ R2)].
  - intros d' Hd. split;
      [by apply (reg_others _ _ _ _ R1)|by apply (dereg_others _ _ _ _ R2)].
Qed.

(** ** Round trips and idempotence *)

Lemma register_eq s d h :
  register s d h =
  Ok () {| subjects :=
             <[s := {| _subject_state := _subject_state (subject_at h s);
                       _observers := {[d]} ∪ _observers (subject_at h s) |}]>
               (subjects h);
           observers :=
             <[d := {| _observer_state := _observer_state (observer_at h d);
                       _subject := Some s |}]> (observers h);
           calls := calls h |}.
Proof. reflexivity. Qed.

Lemma de_register_eq s d h :
  de_register s d h =
  Ok () {| subjects :=
             <[s := {| _subject_state := _subject_state (subject_at h s);
                       _observers := _observers (subject_at h s) ∖ {[d]} |}]>
               (subjects h);
           observers :=
             <[d := {| _observer_state := _observer_state (observer_at h d);
                       _subject := None |}]> (observers h);
           calls := calls h |}.
Proof. reflexivity. Qed.

(** X5. [register] and [de_register] are idempotent on the whole store: a
    second call with the same arguments returns and leaves exactly the store
    the first call left. *)
Theorem registration_calls_idempotent s d h :
  ∃ h1 h2,
    register s d h = Ok () h1 ∧ register s d h1 = Ok () h1
    ∧ de_register s d h = Ok () h2 ∧ de_register s d h2 = Ok () h2.
Proof.
  eexists _, _. split; [apply register_eq|].
  split; [|split; [apply de_register_eq|]].
  - rewrite register_eq.
    rewrite subject_at_insert, observer_at_insert, !decide_True by done.
    simpl. rewrite !insert_insert_eq.
    by rewrite (assoc_L (∪)), (idemp_L (∪)).
  - rewrite de_register_eq.
    rewrite subject_at_insert, observer_at_insert, !decide_True by done.
    simpl. rewrite !insert_insert_eq.
    assert (∀ X : gset nat, X ∖ {[d]} ∖ {[d]} = X ∖ {[d]}) as ->; [|done].
    intros X. apply set_eq. intros x. rewrite !elem_of_difference. tauto.
Qed.

(** X6. Registering a dependent that was not in the registry and
    deregistering it again gives the hub back as it was, registry and state,
    with nothing logged and the dependent's [_observer_state] unchanged; the
    back-reference of the dependent is [None] afterwards, whatever it was
    before. *)
Theorem register_de_register_round_trip s d h :
  d ∉ _observers (subject_at h s) →
  ∃ h1 h2,
    register s d h = Ok () h1
    ∧ de_register s d h1 = Ok () h2
    ∧ subject_at h2 s = subject_at h s
    ∧ calls h2 = calls h
    ∧ _observer_state (observer_at h2 d) = _observer_state (observer_at h d)
    ∧ _subject (observer_at h2 d) = None.
Proof.
  intros Hd.
  destruct (register_spec s d h) as (h1 & E1 & R1).
  destruct (de_register_spec s d h1) as (h2 & E2 & R2).
  exists h1, h2. split; [done|]. split; [done|]. split.
  - assert (_observers (subject_at h2 s) = _observers (subject_at h s)) as Hr.
    { rewrite (dereg_registry _ _ _ _ R2), (reg_registry _ _ _ _ R1).
      apply set_eq. intros x.
      rewrite elem_of_difference, elem_of_union, !elem_of_singleton.
      split; [tauto|]. intros Hx. split; [by right|]. by intros ->. }
    assert (_subject_state (subject_at h2 s) = _subject_state (subject_at h s))
      as Hst by (by rewrite (dereg_state _ _ _ _ R2), (reg_state _ _ _ _ R1)).
    destruct (subject_at h2 s), (subject_at h s); simpl in *; congruence.
  - split; [by rewrite (dereg_calls _ _ _ _ R2), (reg_calls _ _ _ _ R1)|].
    split; [by rewrite (dereg_seen _ _ _ _ R2), (reg_seen _ _ _ _ R1)|].
    apply (dereg_backref _ _ _ _ R2).
Qed.

Lemma register_de_register_round_trip_witness :
  ∃ h1 h2,
    register 0 5 two_registered = Ok () h1
    ∧ de_register 0 5 h1 = Ok () h2
    ∧ subject_at h2 0 = subject_at two_registered 0.
Proof.
  destruct (register_de_register_round_trip 0 5 two_registered)
    as (h1 & h2 & E1 & E2 & Hs & _).
  - vm_compute. set_solver.
  - by exists h1, h2.
Defined.

(** ** The broadcast round *)

(** X7. The order in which the set of observers is iterated does not
    matter: for every enumeration [l] of the registry of [s], notifying in
    the order [l] leaves the same hubs and the same dependents as [_notify],
    and logs the same [update] invocations up to their order. *)
Theorem notify_order_irrelevant s l v h :
  l ≡ₚ elements (_observers (subject_at h s)) →
  ∃ h1 h2,
    _notify s v h = Ok () h1
    ∧ _notify_in_order l v h = Ok () h2
    ∧ subjects h1 = subjects h2
    ∧ (∀ o, observer_at h1 o = observer_at h2 o)
    ∧ calls h1 ≡ₚ calls h2.
Proof.
  intros Hl.
  destruct (_notify_in_order_spec (elements (_observers (subject_at h s))) v h)
    as (h1 & E1 & _).
  destruct (_notify_in_order_spec l v h) as (h2 & E2 & _).
  exists h1, h2. split; [exact E1|]. split; [exact E2|].
  pose proof (_notify_in_order_perm _ _ v h Hl) as Hp. simpl in Hp.
  rewrite E1, E2 in Hp. simpl in Hp.
  destruct Hp as (Hs & Ho & Hc). by repeat split.
Qed.

Lemma notify_order_irrelevant_witness :
  ∃ h1 h2,
    _notify 0 (PyInt 4) two_registered = Ok () h1
    ∧ _notify_in_order [2; 1] (PyInt 4) two_registered = Ok () h2
    ∧ ∀ o, observer_at h1 o = observer_at h2 o.
Proof.
  destruct (notify_order_irrelevant 0 [2; 1] (PyInt 4) two_registered)
    as (h1 & h2 & E1 & E2 & _ & Ho & _).
  - vm_compute. first [reflexivity | apply perm_swap].
  - by exists h1, h2.
Defined.

(** X8. One [setState] runs [update] as many times as the registry has
    members: once with the new value on each member, never on anybody
    else. *)
Theorem set_state_notifies_each_member_once s v d h :
  ∃ h', subject_state_setter s v h = Ok () h'
    ∧ length (calls h') = length (calls h) + size (_observers (subject_at h s))
    ∧ updates_of d h' =
        updates_of d h
        ++ (if decide (d ∈ _observers (subject_at h s)) then [v] else []).
Proof.
  destruct (subject_state_setter_spec s v h) as (h' & E & Hset).
  exists h'. split; [done|]. split.
  - rewrite (ss_calls _ _ _ _ Hset), length_app, length_map. done.
  - by apply state_set_updates.
Qed.

(** ** Stores a client can reach *)

(** X9. In every store reached from fresh objects, a dependent whose
    back-reference names a hub is in the registry of that hub; so its
    [push(x)] returns and comes back to it: the hub's state and the
    dependent's own [_observer_state] are [x], by one [update] on it. *)
Theorem bound_pusher_hears_itself cs d s x :
  _subject (observer_at (exec_all cs empty_heap) d) = Some s →
  d ∈ _observers (subject_at (exec_all cs empty_heap) s)
  ∧ ∃ h', push d x (exec_all cs empty_heap) = Ok () h'
      ∧ _subject_state (subject_at h' s) = x
      ∧ _observer_state (observer_at h' d) = x
      ∧ updates_of d h' = updates_of d (exec_all cs empty_heap) ++ [x].
Proof.
  intros Hb.
  pose proof (reachable_backrefs_registered cs s d Hb) as Hd.
  split; [exact Hd|]. rewrite (push_bound _ _ _ _ Hb).
  destruct (subject_state_setter_spec s x (exec_all cs empty_heap))
    as (h' & E & Hset).
  exists h'. split; [done|].
  split; [apply (ss_state _ _ _ _ Hset)|].
  split; [by apply (ss_seen _ _ _ _ Hset)|].
  rewrite (state_set_updates _ _ _ _ d Hset). by rewrite decide_True.
Qed.

Lemma bound_pusher_hears_itself_witness :
  ∃ h', push 2 (PyInt 9)
          (exec_all [Register 0 1; Register 0 2; DeRegister 0 1] empty_heap)
        = Ok () h'
    ∧ _observer_state (observer_at h' 2) = PyInt 9.
Proof.
  destruct (bound_pusher_hears_itself
              [Register 0 1; Register 0 2; DeRegister 0 1] 2 0 (PyInt 9))
    as (_ & h' & E & _ & Hst & _).
  - reflexivity.
  - by exists h'.
Defined.

Lemma updates_of_same_calls d h h' :
  calls h' = calls h → updates_of d h' = updates_of d h.
Proof. unfold updates_of. by intros ->. Qed.

(** What [exec] keeps of the relation between a dependent's state and the
    log. *)
Lemma exec_last_update c h :
  (∀ d, _observer_state (observer_at h d)
        = default PyNone (last (updates_of d h))) →
  ∀ d, _observer_state (observer_at (heap_of (exec c h)) d)
       = default PyNone (last (updates_of d (heap_of (exec c h)))).
Proof.
  intros Hinv.
  assert (∀ s v h', state_set s v h h' →
            ∀ d, _observer_state (observer_at h' d)
                 = default PyNone (last (updates_of d h'))) as Hsetter.
  { intros s v h' Hset d. rewrite (state_set_updates _ _ _ _ d Hset).
    destruct (decide (d ∈ _observers (subject_at h s))) as [Hd|Hd].
    - rewrite last_snoc. by apply (ss_seen _ _ _ _ Hset).
    - rewrite app_nil_r, (ss_unseen _ _ _ _ Hset d Hd). apply Hinv. }
  destruct c as [s d'|s d'|s v|d' v]; simpl exec.
  - destruct (register_spec s d' h) as (h' & -> & R). simpl. intros d.
    rewrite (updates_of_same_calls _ _ _ (reg_calls _ _ _ _ R)), <- Hinv.
    destruct (decide (d = d')) as [->|Hne].
    + apply (reg_seen _ _ _ _ R).
    + by rewrite (reg_others _ _ _ _ R).
  - destruct (de_register_spec s d' h) as (h' & -> & R). simpl. intros d.
    rewrite (updates_of_same_calls _ _ _ (dereg_calls _ _ _ _ R)), <- Hinv.
    destruct (decide (d = d')) as [->|Hne].
    + apply (dereg_seen _ _ _ _ R).
    + by rewrite (dereg_others _ _ _ _ R).
  - destruct (subject_state_setter_spec s v h) as (h' & -> & Hset). simpl.
    by eapply Hsetter.
  - destruct (_subject (observer_at h d')) as [s|] eqn:Hb.
    + rewrite (push_bound _ _ _ _ Hb).
      destruct (subject_state_setter_spec s v h) as (h' & -> & Hset). simpl.
      by eapply Hsetter.
    + by rewrite (push_unbound _ _ _ Hb).
Qed.

(** X10. Nothing but [update] writes [_observer_state]: in every store
    reached from fresh objects, the state of a dependent is the argument of
    the last [update] that ran on it, and [None] if none ever did. *)
Theorem observer_state_is_last_update cs d :
  _observer_state (observer_at (exec_all cs empty_heap) d)
  = default PyNone (last (updates_of d (exec_all cs empty_heap))).
Proof.
  assert (∀ h,
    (∀ d, _observer_state (observer_at h d)
          = default PyNone (last (updates_of d h))) →
    ∀ d, _observer_state (observer_at (exec_all cs h) d)
         = default PyNone (last (updates_of d (exec_all cs h)))) as Hgen.
  { induction cs as [|c cs IH]; intros h Hinv; [done|].
    simpl. apply IH. by apply exec_last_update. }
  by apply Hgen.
Qed.

End ObserverMore.

(** * Further properties of the singleton accessor *)

Module SingletonMore.
Import Singleton SingletonFacts.

(** ** One caller at a time *)

(** X12. The lock is not reentrant and the slow path waits for it: a lone
    call blocks exactly when the class is uninitialized and the lock is
    held; on an initialized class it returns whatever the lock. *)
Theorem blocks_iff_uninitialized_and_locked c :
  get_cls_instance c = Blocks
  ↔ __app_instance c = None ∧ __singleton_lock c = true.
Proof.
  unfold get_cls_instance.
  destruct (__app_instance c) as [i|] eqn:Hi; simpl.
  - split; [done|]. by intros [[=] _].
  - destruct (__singleton_lock c); simpl; [done|].
    rewrite Hi. simpl. split; [done|]. by intros [_ [=]].
Qed.

(** X13. A call that returns hands back the stored instance, never
    [None], and leaves the lock as it found it: released if it took it. *)
Theorem returning_call_restores_lock c r c' :
  get_cls_instance c = Returns r c' →
  __singleton_lock c' = __singleton_lock c
  ∧ r = __app_instance c'
  ∧ r ≠ None.
Proof.
  unfold get_cls_instance.
  destruct (__app_instance c) as [i|] eqn:Hi; simpl.
  - intros [= <- <-]. by rewrite Hi.
  - destruct (__singleton_lock c) eqn:Hl; simpl; [done|].
    rewrite Hi. simpl. intros [= <- <-]. done.
Qed.

Lemma returning_call_restores_lock_witness :
  ∃ c', get_cls_instance Uninitialized = Returns (Some 0) c'
    ∧ __singleton_lock c' = false.
Proof.
  eexists. split; [reflexivity|].
  by destruct (returning_call_restores_lock Uninitialized (Some 0) _ eq_refl).
Defined.

(** X14. Stepping the body alone is the call: when [get_cls_instance]
    returns, a lone thread reaches its [return] with the same value and
    class, in 2 steps on an initialized class and 7 otherwise; when it
    blocks, the lone thread stops at line 41 for good. *)
Theorem lone_thread_is_the_call c :
  match get_cls_instance c with
  | Returns r c' =>
      run (replicate (if not_ (__app_instance c) then 7 else 2) 0)
          {| cls := c; threads := [L40] |}
      = Some {| cls := c'; threads := [Done r] |}
  | Blocks =>
      run [0] {| cls := c; threads := [L40] |}
      = Some {| cls := c; threads := [L41] |}
      ∧ sched_step 0 {| cls := c; threads := [L41] |} = None
  end.
Proof.
  destruct c as [l [i|] n]; unfold get_cls_instance; simpl; [done|].
  destruct l; simpl; [|done]. done.
Qed.

(** ** Several callers at once *)

Lemma run_app s1 s2 w :
  run (s1 ++ s2) w =
  match run s1 w with
  | Some w1 => run s2 w1
  | None => None
  end.
Proof.
  revert w. induction s1 as [|t s1 IH]; intros w; simpl; [done|].
  by destruct (sched_step t w).
Qed.

(** No step of the body clears the stored instance. *)
Lemma thread_step_keeps_instance c p c' p' :
  thread_step c p = Some (c', p') →
  is_Some (__app_instance c) → is_Some (__app_instance c').
Proof.
  destruct p; simpl; try done.
  - by intros [= <- <-].
  - destruct (__singleton_lock c); [done|]. by intros [= <- <-].
  - by intros [= <- <-].
  - by intros [= <- <-].
  - intros [= <- <-]. simpl. by eexists.
  - destruct (__singleton_lock c); by intros [= <- <-].
  - by intros [= <- <-].
Qed.

Lemma run_keeps_instance schedule w w' :
  run schedule w = Some w' →
  is_Some (__app_instance (cls w)) → is_Some (__app_instance (cls w')).
Proof.
  revert w. induction schedule as [|t schedule IH]; intros w; simpl.
  - by intros [= <-].
  - unfold sched_step at 1.
    destruct (threads w !! t) as [p|]; [|done].
    destruct (thread_step (cls w) p) as [[c1 p1]|] eqn:Hstep; [|done].
    intros Hrun Hi. apply (IH _ Hrun). simpl.
    by eapply thread_step_keeps_instance.
Qed.

(** X15. Initialized is terminal under any interleaving: once some point of
    a run of [N] callers has an instance stored, every continuation of the
    run has that same instance stored and constructs nothing more. *)
Theorem stored_instance_is_final N schedule w i schedule' w' :
  run schedule (spawn N) = Some w →
  __app_instance (cls w) = Some i →
  run schedule' w = Some w' →
  __app_instance (cls w') = Some i
  ∧ constructed (cls w') = constructed (cls w).
Proof.
  intros Hrun Hi Hrun'.
  assert (run (schedule ++ schedule') (spawn N) = Some w') as Hall
    by (by rewrite run_app, Hrun).
  destruct (run_inv _ _ _ Hrun (spawn_inv N)) as [Hcls _].
  destruct (run_inv _ _ _ Hall (spawn_inv N)) as [Hcls' _].
  destruct (run_keeps_instance _ _ _ Hrun') as [i' Hi']; [by eexists|].
  unfold class_ok in Hcls, Hcls'. rewrite Hi in Hcls. rewrite Hi' in Hcls'.
  destruct Hcls as [-> ->], Hcls' as [-> ->]. by rewrite Hi'.
Qed.

Lemma stored_instance_is_final_witness :
  __app_instance (cls after_race) = Some 0
  ∧ constructed (cls after_race) = 1.
Proof.
  destruct (stored_instance_is_final 2 [0; 1; 0; 0; 0; 0]
              {| cls := {| __singleton_lock := true;
                           __app_instance := Some 0;
                           constructed := 1 |};
                 threads := [L44; L41] |}
              0 [0; 1; 1; 1; 0; 1] after_race) as [Hi Hn].
  - reflexivity.
  - reflexivity.
  - reflexivity.
  - split; [exact Hi|exact Hn].
Defined.

(** X16. The lock is held exactly while some caller is between its
    [acquire()] and its [release()]: at every point of every run, the lock is
    taken if and only if some thread is in the critical section; so once all
    callers have returned the lock is free. *)
Theorem lock_held_iff_in_critical_section N schedule w :
  run schedule (spawn N) = Some w →
  (__singleton_lock (cls w) = true
   ↔ ∃ t p, threads w !! t = Some p ∧ in_critical_section p = true)
  ∧ (Forall (λ p, returned p = true) (threads w) →
     __singleton_lock (cls w) = false).
Proof.
  intros Hrun.
  destruct (run_inv _ _ _ Hrun (spawn_inv N)) as [_ (o & Hlock & Hin & Hths)].
  assert (__singleton_lock (cls w) = true
          ↔ ∃ t p, threads w !! t = Some p ∧ in_critical_section p = true)
    as Hiff.
  { rewrite Hlock. split.
    - destruct o as [t|]; [|done]. intros _.
      destruct (Hin t eq_refl) as [p Ht]. exists t, p. split; [done|].
      by apply (Hths _ _ Ht).
    - intros (t & p & Ht & Hcs).
      destruct (Hths _ _ Ht) as [Ho _]. by rewrite (proj1 Ho Hcs). }
  split; [exact Hiff|].
  intros Hall. destruct (__singleton_lock (cls w)) eqn:Hl; [|done].
  destruct (proj1 Hiff eq_refl) as (t & p & Ht & Hcs).
  rewrite Forall_lookup in Hall. specialize (Hall _ _ Ht).
  by destruct p.
Qed.

Lemma lock_held_iff_in_critical_section_witness :
  __singleton_lock (cls after_race) = false.
Proof.
  destruct (lock_held_iff_in_critical_section 2 race after_race eq_refl)
    as [_ Hfree].
  apply Hfree. by repeat constructor.
Defined.

(** X17. The fast path never waits: on a class with an instance stored, a
    caller at line 40 returns that instance in its next two steps, whether
    the lock is held or free and wherever the other threads are, and changes
    nothing of the class. *)
Theorem fast_path_returns_in_two_steps w t i :
  threads w !! t = Some L40 →
  __app_instance (cls w) = Some i →
  run [t; t] w
  = Some {| cls := cls w; threads := <[t := Done (Some i)]> (threads w) |}.
Proof.
  intros Ht Hi. simpl. unfold sched_step at 1. rewrite Ht. simpl.
  rewrite Hi. simpl. unfold sched_step. simpl.
  rewrite list_lookup_insert_eq by (by eapply lookup_lt_Some). simpl.
  rewrite Hi. by rewrite list_insert_insert_eq.
Qed.

Lemma fast_path_returns_in_two_steps_witness :
  run [1; 1] {| cls := {| __singleton_lock := true;
                          __app_instance := Some 0;
                          constructed := 1 |};
                threads := [L44; L40] |}
  = Some {| cls := {| __singleton_lock := true;
                      __app_instance := Some 0;
                      constructed := 1 |};
            threads := [L44; Done (Some 0)] |}.
Proof.
  apply (fast_path_returns_in_two_steps
           {| cls := {| __singleton_lock := true;
                        __app_instance := Some 0;
                        constructed := 1 |};
              threads := [L44; L40] |} 1 0); reflexivity.
Defined.

End SingletonMore.
